(** * The workspace index manager of Langium (DefaultIndexManager)

    A shallow embedding of [DefaultIndexManager] (workspace/index-manager):
    the symbol index, the reference index, the global scope cache and the
    queries built on them.  Every method is a function on the manager's
    fields.  A call is taken to run to completion before the next one
    starts: the two asynchronous updates are followed from their first
    statement to their last with no other call of the manager in between,
    the serialized use the workspace orchestration is in charge of.  The
    two halves of [updateContent] around its [await] are given as well,
    for what a query sees when it runs in between. *)

From stdpp Require Import base option list strings gmap.
From Stdlib Require Import List Bool.
Import ListNotations.

Local Open Scope string_scope.
Local Open Scope list_scope.

(** ** Insertion-ordered maps with string keys (the ECMAScript [Map])

    [Map] iterates in insertion order of the keys; [set] on a key that is
    present keeps the key's position, [delete] followed by [set] moves it to
    the end.  The indices are iterated ([values], [forEach]), so the order
    is part of the model. *)
Module JsMap.

Definition t (V : Type) : Type := list (string * V).

Definition empty {V : Type} : t V := [].

Fixpoint get {V : Type} (k : string) (m : t V) : option V :=
  match m with
  | [] => None
  | (k', v) :: rest => if String.eqb k' k then Some v else get k rest
  end.

Fixpoint set {V : Type} (k : string) (v : V) (m : t V) : t V :=
  match m with
  | [] => [(k, v)]
  | (k', v') :: rest =>
      if String.eqb k' k then (k', v) :: rest else (k', v') :: set k v rest
  end.

Fixpoint delete {V : Type} (k : string) (m : t V) : t V :=
  match m with
  | [] => []
  | (k', v') :: rest =>
      if String.eqb k' k then delete k rest else (k', v') :: delete k rest
  end.

Definition keys {V : Type} (m : t V) : list string := map fst m.

Definition values {V : Type} (m : t V) : list V := map snd m.

(** At most one entry per key. *)
Definition wf {V : Type} (m : t V) : Prop := NoDup (keys m).

End JsMap.

(** ** Data model *)

(** [URI.toString()]: a resource identifier is represented by its canonical
    string form, the only thing the index manager reads from it. *)
Definition URI : Type := string.

Definition URI_toString (u : URI) : string := u.

(** Modelled from the spec: [equalURI] of utils/uri-util is not among the
    sources; identifiers are equal by value, that is, when their string
    forms coincide. *)
Definition equalURI (a b : URI) : bool :=
  String.eqb (URI_toString a) (URI_toString b).

(** Modelled from the spec: [DocumentState] of workspace/documents is not
    among the sources; the lifecycle states of a document in build order. *)
Inductive DocumentState : Type :=
| Changed
| Parsed
| IndexedContent
| ComputedScopes
| Linked
| IndexedReferences
| Validated.

(** Modelled from the spec: the types [LinkingError], [Reference] and
    [AstNode] of syntax-tree and [LangiumDocument] of workspace/documents
    are not among the sources; they carry what the index manager reads and
    writes. *)
Record LinkingError : Type := { message : string }.

(** A cross-reference held by a document, with its resolution error if any. *)
Record Reference : Type := {
  refText : string;
  error : option LinkingError
}.

Record LangiumDocument : Type := {
  uri : URI;
  state : DocumentState;
  references : list Reference
}.

Record AstNode : Type := {
  astType : string;
  astDocument : LangiumDocument
}.

(** Modelled from the spec: [getDocument] of utils/ast-util is not among the
    sources; the document that owns a node. *)
Definition getDocument (n : AstNode) : LangiumDocument := astDocument n.

(** Modelled from the spec: [AstNodeDescription] of syntax-tree is not
    among the sources; [node] is the transient reference to the AST node. *)
Record AstNodeDescription : Type := {
  node : option AstNode;
  name : string;
  type : string;
  documentUri : URI;
  path : string
}.

(** Modelled from the spec: [ReferenceDescription] of
    workspace/ast-descriptions is not among the sources. *)
Record ReferenceDescription : Type := {
  sourceUri : URI;
  sourcePath : string;
  targetUri : URI;
  targetPath : string;
  local : bool
}.

(** Modelled from the spec: [ScopeOptions] of references/scope is not among
    the sources; the configuration handed to the scope constructor. *)
Record ScopeOptions : Type := { caseInsensitive : bool }.

(** Modelled from the spec: the [MapScope] class of references/scope is not
    among the sources; a scope is represented by what its constructor
    received: the elements, the outer scope and the options. *)
#[warnings="-register-all"]
Inductive Scope : Type :=
| MapScope (elements : list AstNodeDescription) (outerScope : option Scope)
           (options : option ScopeOptions).

Definition scope_elements (s : Scope) : list AstNodeDescription :=
  match s with MapScope elements _ _ => elements end.

Definition scope_options (s : Scope) : option ScopeOptions :=
  match s with MapScope _ _ options => options end.

(** The cancellation token of the language-server library, as far as an
    extractor reads it. *)
Record CancellationToken : Type := { isCancellationRequested : bool }.

Definition CancellationToken_None : CancellationToken :=
  {| isCancellationRequested := false |}.

(** What a call can raise: the cooperative cancellation condition or a
    failure of the callee. *)
Inductive Exn : Type :=
| OperationCancelled
| Failure (msg : string).

(** How a call completes. *)
Inductive Completion (A : Type) : Type :=
| Returned (a : A)
| Thrown (e : Exn).

Arguments Returned {A} a.
Arguments Thrown {A} e.

(** The language services the index manager resolves per document:
    [references.ScopeComputation.computeExports] and
    [workspace.ReferenceDescriptionProvider.createDescriptions]. *)
Record LangiumServices : Type := {
  computeExports :
    LangiumDocument -> CancellationToken -> Completion (list AstNodeDescription);
  createDescriptions :
    LangiumDocument -> CancellationToken -> Completion (list ReferenceDescription)
}.

(** The fields of [DefaultIndexManager] that change. *)
Record DefaultIndexManager : Type := {
  simpleIndex : JsMap.t (list AstNodeDescription);
  referenceIndex : JsMap.t (list ReferenceDescription);
  globalScopeCache : gmap string Scope;
  allElementsCache : list AstNodeDescription
}.

(** A call of [astReflection.isSubtype(subtype, supertype)]. *)
Definition IsSubtypeCall : Type := (string * string)%type.

(** [e.error !== undefined] *)
Definition has_error (e : Reference) : bool :=
  match error e with
  | Some _ => true
  | None => false
  end.

(** ** The methods of [DefaultIndexManager] *)

Section IndexManager.

(** The collaborators received by the constructor:
    [services.AstReflection] and [services.ServiceRegistry]. *)
Variable isSubtype : string -> string -> bool.
Variable getServices : URI -> Completion LangiumServices.

(** The manager as the constructor leaves it. *)
Definition new_DefaultIndexManager : DefaultIndexManager :=
  {| simpleIndex := JsMap.empty;
     referenceIndex := JsMap.empty;
     globalScopeCache := ∅;
     allElementsCache := [] |}.

(** [findAllReferences]: both [forEach] loops push on [result]. *)
Definition findAllReferences (targetNode : AstNode) (astNodePath : string)
    (this : DefaultIndexManager) : list ReferenceDescription :=
  let targetDocUri := uri (getDocument targetNode) in
  fold_left
    (fun result docRefs =>
       fold_left
         (fun result refDescr =>
            if equalURI (targetUri refDescr) targetDocUri
               && String.eqb (targetPath refDescr) astNodePath
            then result ++ [refDescr]
            else result)
         docRefs result)
    (JsMap.values (referenceIndex this)) [].

(** [allElementsCache.filter(e => astReflection.isSubtype(e.type, nodeType))],
    with the calls made to [isSubtype] in order. *)
Fixpoint filter_isSubtype (elems : list AstNodeDescription) (nodeType : string)
    : list AstNodeDescription * list IsSubtypeCall :=
  match elems with
  | [] => ([], [])
  | e :: rest =>
      let keep := isSubtype (type e) nodeType in
      let '(kept, calls) := filter_isSubtype rest nodeType in
      (if keep then e :: kept else kept, (type e, nodeType) :: calls)
  end.

(** [if (allElementsCache.length === 0) allElementsCache = Array.from(simpleIndex.values()).flat()]:
    the value of [allElementsCache] after the first statement of
    [globalScope]. *)
Definition flattened (this : DefaultIndexManager) : list AstNodeDescription :=
  if Nat.eqb (length (allElementsCache this)) 0
  then concat (JsMap.values (simpleIndex this))
  else allElementsCache this.

(** [globalScope(nodeType = '', scopeOptions?)]: the scope returned, the
    manager afterwards and the calls made to [isSubtype]. *)
Definition globalScope (nodeType : option string)
    (scopeOptions : option ScopeOptions) (this : DefaultIndexManager)
    : Scope * DefaultIndexManager * list IsSubtypeCall :=
  let nodeType := default "" nodeType in
  let allElements := flattened this in
  match globalScopeCache this !! nodeType with
  | Some cached =>
      (cached,
       {| simpleIndex := simpleIndex this;
          referenceIndex := referenceIndex this;
          globalScopeCache := globalScopeCache this;
          allElementsCache := allElements |},
       [])
  | None =>
      let '(elements, calls) := filter_isSubtype allElements nodeType in
      let scope := MapScope elements None scopeOptions in
      (scope,
       {| simpleIndex := simpleIndex this;
          referenceIndex := referenceIndex this;
          globalScopeCache := <[nodeType := scope]> (globalScopeCache this);
          allElementsCache := allElements |},
       calls)
  end.

(** The body of the loop of [remove], for one uri. *)
Definition remove_step (this : DefaultIndexManager) (u : URI)
    : DefaultIndexManager :=
  let uriString := URI_toString u in
  {| simpleIndex := JsMap.delete uriString (simpleIndex this);
     referenceIndex := JsMap.delete uriString (referenceIndex this);
     globalScopeCache := ∅;
     allElementsCache := [] |}.

Definition remove (uris : list URI) (this : DefaultIndexManager)
    : DefaultIndexManager :=
  fold_left remove_step uris this.

(** [data.node = undefined] *)
Definition clear_node (data : AstNodeDescription) : AstNodeDescription :=
  {| node := None;
     name := name data;
     type := type data;
     documentUri := documentUri data;
     path := path data |}.

Definition set_state (document : LangiumDocument) (st : DocumentState)
    : LangiumDocument :=
  {| uri := uri document; state := st; references := references document |}.

(** [updateContent]: how the call completes, the document and the manager
    afterwards.  The two cache fields are reset before anything can raise. *)
Definition updateContent (document : LangiumDocument)
    (cancelToken : option CancellationToken) (this : DefaultIndexManager)
    : Completion unit * LangiumDocument * DefaultIndexManager :=
  let cancelToken := default CancellationToken_None cancelToken in
  let this :=
    {| simpleIndex := simpleIndex this;
       referenceIndex := referenceIndex this;
       globalScopeCache := ∅;
       allElementsCache := [] |} in
  match getServices (uri document) with
  | Thrown e => (Thrown e, document, this)
  | Returned services =>
      match computeExports services document cancelToken with
      | Thrown e => (Thrown e, document, this)
      | Returned exports =>
          let exports := map clear_node exports in
          (Returned tt,
           set_state document IndexedContent,
           {| simpleIndex :=
                JsMap.set (URI_toString (uri document)) exports (simpleIndex this);
              referenceIndex := referenceIndex this;
              globalScopeCache := globalScopeCache this;
              allElementsCache := allElementsCache this |})
      end
  end.

Definition updateReferences (document : LangiumDocument)
    (cancelToken : option CancellationToken) (this : DefaultIndexManager)
    : Completion unit * LangiumDocument * DefaultIndexManager :=
  let cancelToken := default CancellationToken_None cancelToken in
  match getServices (uri document) with
  | Thrown e => (Thrown e, document, this)
  | Returned services =>
      match createDescriptions services document cancelToken with
      | Thrown e => (Thrown e, document, this)
      | Returned indexData =>
          (Returned tt,
           set_state document IndexedReferences,
           {| simpleIndex := simpleIndex this;
              referenceIndex :=
                JsMap.set (URI_toString (uri document)) indexData (referenceIndex this);
              globalScopeCache := globalScopeCache this;
              allElementsCache := allElementsCache this |})
      end
  end.

(** [isAffected(document, changed)] *)
Definition isAffected (document : LangiumDocument) (changed : URI)
    (this : DefaultIndexManager) : bool :=
  let changedUriString := URI_toString changed in
  let documentUri := URI_toString (uri document) in
  if existsb (fun e => has_error e) (references document)
  then true
  else
    match JsMap.get documentUri (referenceIndex this) with
    | Some references =>
        existsb (fun e => equalURI (targetUri e) changedUriString)
                (List.filter (fun e => negb (local e)) references)
    | None => false
    end.

(** The [for (const uri of uris)] loop of the filter callback. *)
Fixpoint isAffected_loop (e : LangiumDocument) (uris : list URI)
    (this : DefaultIndexManager) : bool :=
  match uris with
  | [] => false
  | u :: rest =>
      if isAffected e u this then true else isAffected_loop e rest this
  end.

(** [getAffectedDocuments(uris)], over [langiumDocuments().all]. *)
Definition getAffectedDocuments (uris : list URI) (all : list LangiumDocument)
    (this : DefaultIndexManager) : list LangiumDocument :=
  List.filter
    (fun e =>
       if existsb (fun u => equalURI (uri e) u) uris
       then false
       else isAffected_loop e uris this)
    all.

(** *** Representation invariants *)

(** [Array.from(simpleIndex.values()).flat()]: every stored description,
    in index iteration order. *)
Definition allElements (this : DefaultIndexManager) : list AstNodeDescription :=
  concat (JsMap.values (simpleIndex this)).

(** The descriptions that pass the type filter. *)
Definition elements_of_type (nodeType : string)
    (elems : list AstNodeDescription) : list AstNodeDescription :=
  List.filter (fun e => isSubtype (type e) nodeType) elems.

Definition caches_cleared (this : DefaultIndexManager) : Prop :=
  globalScopeCache this = ∅ /\ allElementsCache this = [].

(** The two caches agree with the symbol index: the flattened list is
    empty or is the flattened index, and every cached scope was built
    from the flattened index with the filter of its key. *)
Definition cache_coherent (this : DefaultIndexManager) : Prop :=
  (allElementsCache this = [] \/ allElementsCache this = allElements this)
  /\ (forall (T : string) (sc : Scope),
        globalScopeCache this !! T = Some sc ->
        exists o, sc = MapScope (elements_of_type T (allElements this)) None o).

(** Each index holds at most one list per document identifier. *)
Definition index_wf (this : DefaultIndexManager) : Prop :=
  JsMap.wf (simpleIndex this) /\ JsMap.wf (referenceIndex this).

(** No stored description keeps an AST node. *)
Definition nodes_cleared (this : DefaultIndexManager) : Prop :=
  Forall (fun e => node e = None) (allElements this).

(** The managers that calls of the public methods produce, starting
    from the constructor. *)
Inductive reachable : DefaultIndexManager -> Prop :=
| reach_new : reachable new_DefaultIndexManager
| reach_globalScope this nodeType scopeOptions :
    reachable this ->
    reachable (snd (fst (globalScope nodeType scopeOptions this)))
| reach_remove this uris :
    reachable this -> reachable (remove uris this)
| reach_updateContent this document cancelToken :
    reachable this ->
    reachable (snd (updateContent document cancelToken this))
| reach_updateReferences this document cancelToken :
    reachable this ->
    reachable (snd (updateReferences document cancelToken this)).

(** A run of [globalScope] calls, one per query. *)
Definition globalScope_run
    (queries : list (option string * option ScopeOptions))
    (this : DefaultIndexManager) : DefaultIndexManager :=
  fold_left (fun this q => snd (fst (globalScope (fst q) (snd q) this)))
            queries this.

(** *** The two halves of [updateContent]

    [updateContent] is an [async] method: it runs from its first statement
    to the [await] of the extractor call, and is resumed with the
    extractor's outcome later; other calls of the manager can run in
    between. *)

(** [updateContent] up to its [await]: both caches are reset, the services
    are resolved and the extractor is called; the outcome of the extractor
    is what the method is resumed with. *)
Definition updateContent_begin (document : LangiumDocument)
    (cancelToken : option CancellationToken) (this : DefaultIndexManager)
    : Completion (list AstNodeDescription) * DefaultIndexManager :=
  let cancelToken := default CancellationToken_None cancelToken in
  let this :=
    {| simpleIndex := simpleIndex this;
       referenceIndex := referenceIndex this;
       globalScopeCache := ∅;
       allElementsCache := [] |} in
  match getServices (uri document) with
  | Thrown e => (Thrown e, this)
  | Returned services => (computeExports services document cancelToken, this)
  end.

(** [updateContent] from its [await] on, resumed with the outcome of the
    extractor on the manager as it is by then. *)
Definition updateContent_resume (document : LangiumDocument)
    (outcome : Completion (list AstNodeDescription))
    (this : DefaultIndexManager)
    : Completion unit * LangiumDocument * DefaultIndexManager :=
  match outcome with
  | Thrown e => (Thrown e, document, this)
  | Returned exports =>
      let exports := map clear_node exports in
      (Returned tt,
       set_state document IndexedContent,
       {| simpleIndex :=
            JsMap.set (URI_toString (uri document)) exports (simpleIndex this);
          referenceIndex := referenceIndex this;
          globalScopeCache := globalScopeCache this;
          allElementsCache := allElementsCache this |})
  end.

End IndexManager.

(** ** Properties of a query, worded as the specification words them *)

(** A document carries at least one recorded reference-resolution error. *)
Definition carries_error (D : LangiumDocument) : Prop :=
  exists r, In r (references D) /\ error r <> None.

(** The reference index entry of a document holds a non-local reference
    whose target is one of the changed documents. *)
Definition refers_to_changed (changedIds : list URI)
    (this : DefaultIndexManager) (D : LangiumDocument) : Prop :=
  exists refs r,
    JsMap.get (URI_toString (uri D)) (referenceIndex this) = Some refs
    /\ In r refs /\ local r = false /\ In (targetUri r) changedIds.

(** The affected documents as the specification describes them. *)
Definition affected_as_specified (changedIds : list URI)
    (this : DefaultIndexManager) (D : LangiumDocument) : Prop :=
  ~ In (uri D) changedIds
  /\ (carries_error D \/ refers_to_changed changedIds this D).

(** The affected documents as the filter callback computes them: an error
    counts only when some document changed. *)
Definition affected_as_computed (changedIds : list URI)
    (this : DefaultIndexManager) (D : LangiumDocument) : Prop :=
  ~ In (uri D) changedIds
  /\ ((changedIds <> [] /\ carries_error D)
      \/ refers_to_changed changedIds this D).

(** A stored reference description points at [path] in the document
    [target]. *)
Definition points_at (target : URI) (targetPath' : string)
    (r : ReferenceDescription) : bool :=
  equalURI (targetUri r) target && String.eqb (targetPath r) targetPath'.

(** ** A small workspace

    Document [a.calc] exports the definition [x]; document [b.calc] exports
    a module and refers to [x] across documents; document [c.calc] has an
    unresolved reference. *)
Module Scenario.

Definition uriA : URI := "file:///a.calc".
Definition uriB : URI := "file:///b.calc".
Definition uriC : URI := "file:///c.calc".

Definition docA : LangiumDocument :=
  {| uri := uriA; state := Parsed; references := [] |}.

Definition docB : LangiumDocument :=
  {| uri := uriB; state := Parsed;
     references := [ {| refText := "x"; error := None |} ] |}.

Definition docC : LangiumDocument :=
  {| uri := uriC; state := Parsed;
     references :=
       [ {| refText := "y";
            error := Some {| message := "Could not resolve reference" |} |} ] |}.

Definition xNode : AstNode := {| astType := "Definition"; astDocument := docA |}.
Definition mNode : AstNode := {| astType := "Module"; astDocument := docB |}.

Definition xPath : string := "/statements@0".

Definition exportsA : list AstNodeDescription :=
  [ {| node := Some xNode; name := "x"; type := "Definition";
       documentUri := uriA; path := xPath |} ].

Definition exportsB : list AstNodeDescription :=
  [ {| node := Some mNode; name := "m"; type := "Module";
       documentUri := uriB; path := "" |} ].

Definition refsB : list ReferenceDescription :=
  [ {| sourceUri := uriB; sourcePath := "/statements@0/expression";
       targetUri := uriA; targetPath := xPath; local := false |} ].

(** The extractors of the language: they stop with the cancellation
    condition when the token asks for it. *)
Definition calcServices : LangiumServices :=
  {| computeExports := fun document cancelToken =>
       if isCancellationRequested cancelToken then Thrown OperationCancelled
       else if String.eqb (uri document) uriA then Returned exportsA
       else if String.eqb (uri document) uriB then Returned exportsB
       else Returned [];
     createDescriptions := fun document cancelToken =>
       if isCancellationRequested cancelToken then Thrown OperationCancelled
       else if String.eqb (uri document) uriB then Returned refsB
       else Returned [] |}.

Definition getServices (u : URI) : Completion LangiumServices :=
  Returned calcServices.

(** A subtype relation as a generated reflection computes it: a type is
    a subtype of itself, and the declared pairs hold, here [Definition]
    and [DeclaredParameter] below [AbstractDefinition]. *)
Definition isSubtype (subtype supertype : string) : bool :=
  String.eqb subtype supertype
  || ((String.eqb subtype "Definition" || String.eqb subtype "DeclaredParameter")
      && String.eqb supertype "AbstractDefinition").

Definition cancelled : CancellationToken := {| isCancellationRequested := true |}.

(** [updateContent(a)], [updateContent(b)], [updateReferences(b)] on a new
    manager. *)
Definition indexedA : DefaultIndexManager :=
  snd (updateContent getServices docA None new_DefaultIndexManager).

Definition indexedAB : DefaultIndexManager :=
  snd (updateContent getServices docB None indexedA).

Definition indexed : DefaultIndexManager :=
  snd (updateReferences getServices docB None indexedAB).

Definition caseSensitive : ScopeOptions := {| caseInsensitive := false |}.
Definition caseInsensitive' : ScopeOptions := {| caseInsensitive := true |}.

End Scenario.

(** * Facts *)

(** ** Insertion-ordered maps *)
Module JsMapFacts.
Section Facts.

Context {V : Type}.
Implicit Types (k : string) (v : V) (m : JsMap.t V).

Lemma get_set_eq k v m : JsMap.get k (JsMap.set k v m) = Some v.
Proof.
  induction m as [|[k' v'] m IH]; simpl.
  - now rewrite String.eqb_refl.
  - destruct (String.eqb k' k) eqn:E; simpl; rewrite E; auto.
Qed.

Lemma get_set_ne k k' v m :
  k <> k' -> JsMap.get k' (JsMap.set k v m) = JsMap.get k' m.
Proof.
  intros Hne. induction m as [|[k0 v0] m IH]; simpl.
  - apply String.eqb_neq in Hne. now rewrite Hne.
  - destruct (String.eqb k0 k) eqn:E; simpl.
    + apply String.eqb_eq in E. subst k0.
      apply String.eqb_neq in Hne. now rewrite Hne.
    + now rewrite IH.
Qed.

Lemma get_delete_eq k m : JsMap.get k (JsMap.delete k m) = None.
Proof.
  induction m as [|[k0 v0] m IH]; simpl; auto.
  destruct (String.eqb k0 k) eqn:E; simpl; auto.
  now rewrite E.
Qed.

Lemma get_delete_ne k k' m :
  k <> k' -> JsMap.get k' (JsMap.delete k m) = JsMap.get k' m.
Proof.
  intros Hne. induction m as [|[k0 v0] m IH]; simpl; auto.
  destruct (String.eqb k0 k) eqn:E; simpl.
  - apply String.eqb_eq in E. subst k0.
    apply String.eqb_neq in Hne. now rewrite Hne.
  - now rewrite IH.
Qed.

Lemma get_None_keys k m : JsMap.get k m = None <-> ~ In k (JsMap.keys m).
Proof.
  induction m as [|[k0 v0] m IH]; simpl.
  - tauto.
  - destruct (String.eqb k0 k) eqn:E.
    + apply String.eqb_eq in E. split; [discriminate | tauto].
    + apply String.eqb_neq in E. rewrite IH. tauto.
Qed.

Lemma get_Some_In k v m : JsMap.get k m = Some v -> In (k, v) m.
Proof.
  induction m as [|[k0 v0] m IH]; simpl; [discriminate|].
  destruct (String.eqb k0 k) eqn:E.
  - apply String.eqb_eq in E. intros [= ->]. subst. now left.
  - auto.
Qed.

Lemma In_get k v m : JsMap.wf m -> In (k, v) m -> JsMap.get k m = Some v.
Proof.
  unfold JsMap.wf.
  induction m as [|[k0 v0] m IH]; simpl; [tauto|].
  intros Hnd [Heq | Hin].
  - injection Heq as -> ->. now rewrite String.eqb_refl.
  - inversion Hnd as [|? ? Hnotin Hnd']; subst.
    destruct (String.eqb k0 k) eqn:E.
    + apply String.eqb_eq in E. subst k0. exfalso. apply Hnotin.
      change k with (fst (k, v)). now apply in_map.
    + auto.
Qed.

(** The values of a map are the lists stored under its keys. *)
Lemma In_values v m :
  JsMap.wf m -> (In v (JsMap.values m) <-> exists k, JsMap.get k m = Some v).
Proof.
  intros Hwf. unfold JsMap.values. rewrite in_map_iff. split.
  - intros [[k v'] [Hv Hin]]. simpl in Hv. subst v'.
    exists k. now apply In_get.
  - intros [k Hk]. exists (k, v). split; [reflexivity|]. now apply get_Some_In.
Qed.

Lemma keys_set_present k v m :
  In k (JsMap.keys m) -> JsMap.keys (JsMap.set k v m) = JsMap.keys m.
Proof.
  induction m as [|[k0 v0] m IH]; simpl; [tauto|].
  intros Hin. destruct (String.eqb k0 k) eqn:E; simpl; [reflexivity|].
  apply String.eqb_neq in E. f_equal. apply IH. tauto.
Qed.

Lemma keys_set_absent k v m :
  ~ In k (JsMap.keys m) -> JsMap.keys (JsMap.set k v m) = JsMap.keys m ++ [k].
Proof.
  induction m as [|[k0 v0] m IH]; simpl; [reflexivity|].
  intros Hnotin. destruct (String.eqb k0 k) eqn:E; simpl.
  - apply String.eqb_eq in E. tauto.
  - f_equal. apply IH. tauto.
Qed.

(** [set] keeps one entry per key. *)
Lemma wf_set k v m : JsMap.wf m -> JsMap.wf (JsMap.set k v m).
Proof.
  unfold JsMap.wf. intros Hnd.
  destruct (in_dec String.string_dec k (JsMap.keys m)) as [Hin | Hnotin].
  - now rewrite keys_set_present.
  - rewrite keys_set_absent by assumption.
    apply NoDup_app; repeat split; auto.
    + repeat constructor. simpl. tauto.
    + intros x Hx [<- | []]. contradiction.
Qed.

Lemma keys_delete k m :
  JsMap.keys (JsMap.delete k m)
  = List.filter (fun k' => negb (String.eqb k' k)) (JsMap.keys m).
Proof.
  induction m as [|[k0 v0] m IH]; simpl; auto.
  destruct (String.eqb k0 k); simpl; now rewrite IH.
Qed.

Lemma wf_delete k m : JsMap.wf m -> JsMap.wf (JsMap.delete k m).
Proof.
  unfold JsMap.wf. rewrite keys_delete. apply NoDup_filter.
Qed.

(** Deleting a key that has no entry changes nothing. *)
Lemma delete_absent k m : JsMap.get k m = None -> JsMap.delete k m = m.
Proof.
  induction m as [|[k0 v0] m IH]; simpl; auto.
  destruct (String.eqb k0 k); [discriminate|].
  intros H. now rewrite IH.
Qed.

End Facts.

Section Flattened.

Context {A : Type}.
Implicit Types (k : string) (v : list A) (m : JsMap.t (list A)).

(** What [values().flat()] holds after a [set] was stored before or is
    in the list just stored. *)
Lemma In_flat_set x k v m :
  In x (concat (JsMap.values (JsMap.set k v m))) ->
  In x v \/ In x (concat (JsMap.values m)).
Proof.
  induction m as [|[k0 v0] m IH]; simpl.
  - rewrite app_nil_r. tauto.
  - destruct (String.eqb k0 k); simpl; rewrite !in_app_iff; tauto.
Qed.

Lemma In_flat_delete x k m :
  In x (concat (JsMap.values (JsMap.delete k m))) ->
  In x (concat (JsMap.values m)).
Proof.
  induction m as [|[k0 v0] m IH]; simpl; [tauto|].
  destruct (String.eqb k0 k); simpl; rewrite !in_app_iff; tauto.
Qed.

End Flattened.
End JsMapFacts.

(** ** The index manager *)
Section IndexManagerFacts.

Variable isSubtype : string -> string -> bool.
Variable getServices : URI -> Completion LangiumServices.

Implicit Types (this s : DefaultIndexManager) (T : option string)
  (o : option ScopeOptions) (d document : LangiumDocument)
  (tok : option CancellationToken).

(** *** The filter of [globalScope] *)

Lemma filter_isSubtype_elements elems nodeType :
  fst (filter_isSubtype isSubtype elems nodeType)
  = elements_of_type isSubtype nodeType elems.
Proof.
  induction elems as [|e rest IH]; simpl; [reflexivity|].
  destruct (filter_isSubtype isSubtype rest nodeType) as [kept calls].
  simpl in *. now rewrite IH.
Qed.

(** One call of [isSubtype] per element, in order. *)
Lemma filter_isSubtype_calls elems nodeType :
  snd (filter_isSubtype isSubtype elems nodeType)
  = map (fun e => (type e, nodeType)) elems.
Proof.
  induction elems as [|e rest IH]; simpl; [reflexivity|].
  destruct (filter_isSubtype isSubtype rest nodeType) as [kept calls].
  simpl in *. now rewrite IH.
Qed.

Lemma globalScope_hit T o s cached :
  globalScopeCache s !! default "" T = Some cached ->
  globalScope isSubtype T o s
  = (cached,
     {| simpleIndex := simpleIndex s;
        referenceIndex := referenceIndex s;
        globalScopeCache := globalScopeCache s;
        allElementsCache := flattened s |},
     []).
Proof. intros H. unfold globalScope. now rewrite H. Qed.

Lemma globalScope_miss T o s :
  globalScopeCache s !! default "" T = None ->
  globalScope isSubtype T o s
  = (MapScope (elements_of_type isSubtype (default "" T) (flattened s)) None o,
     {| simpleIndex := simpleIndex s;
        referenceIndex := referenceIndex s;
        globalScopeCache :=
          <[default "" T :=
              MapScope (elements_of_type isSubtype (default "" T) (flattened s))
                       None o]>
            (globalScopeCache s);
        allElementsCache := flattened s |},
     map (fun e => (type e, default "" T)) (flattened s)).
Proof.
  intros H. unfold globalScope. rewrite H.
  pose proof (filter_isSubtype_elements (flattened s) (default "" T)) as He.
  pose proof (filter_isSubtype_calls (flattened s) (default "" T)) as Hc.
  destruct (filter_isSubtype isSubtype (flattened s) (default "" T))
    as [elements calls].
  simpl in He, Hc. now subst.
Qed.

(** [globalScope] never touches the two indices. *)
Lemma globalScope_indices T o s :
  simpleIndex (snd (fst (globalScope isSubtype T o s))) = simpleIndex s
  /\ referenceIndex (snd (fst (globalScope isSubtype T o s))) = referenceIndex s.
Proof.
  destruct (globalScopeCache s !! default "" T) as [cached|] eqn:E.
  - now rewrite (globalScope_hit _ o _ _ E).
  - now rewrite (globalScope_miss _ o _ E).
Qed.

(** *** Cache coherence *)

Lemma flattened_coherent s :
  cache_coherent isSubtype s -> flattened s = allElements s.
Proof.
  intros [[Hnil | Hall] _]; unfold flattened; fold (allElements s).
  - now rewrite Hnil.
  - rewrite Hall. now destruct (Nat.eqb (length (allElements s)) 0).
Qed.

Lemma cleared_coherent s : caches_cleared s -> cache_coherent isSubtype s.
Proof.
  intros [Hc Ha]. split; [now left|].
  intros T sc. rewrite Hc, lookup_empty. discriminate.
Qed.

Lemma globalScope_coherent T o s :
  cache_coherent isSubtype s ->
  cache_coherent isSubtype (snd (fst (globalScope isSubtype T o s))).
Proof.
  intros Hco. pose proof (flattened_coherent _ Hco) as Hflat.
  destruct Hco as [_ Hcache].
  destruct (globalScopeCache s !! default "" T) as [cached|] eqn:E.
  - rewrite (globalScope_hit _ o _ _ E). simpl. split.
    + now right.
    + exact Hcache.
  - rewrite (globalScope_miss _ o _ E). simpl. split.
    + now right.
    + intros T' sc. unfold allElements at 1. simpl. fold (allElements s).
      destruct (decide (default "" T = T')) as [<- | Hne].
      * rewrite lookup_insert_eq. intros [= <-]. exists o. now rewrite Hflat.
      * rewrite lookup_insert_ne by assumption. apply Hcache.
Qed.

(** The scope [globalScope] returns holds the stored descriptions that
    pass the filter, whenever the caches are coherent. *)
Lemma globalScope_elements T o s :
  cache_coherent isSubtype s ->
  scope_elements (fst (fst (globalScope isSubtype T o s)))
  = elements_of_type isSubtype (default "" T) (allElements s).
Proof.
  intros Hco. pose proof (flattened_coherent _ Hco) as Hflat.
  destruct Hco as [_ Hcache].
  destruct (globalScopeCache s !! default "" T) as [cached|] eqn:E.
  - rewrite (globalScope_hit _ o _ _ E). simpl.
    destruct (Hcache _ _ E) as [o' ->]. reflexivity.
  - rewrite (globalScope_miss _ o _ E). simpl. now rewrite Hflat.
Qed.

(** The scope [globalScope] returns was built from the flattened symbol
    index with the filter asked for, by this call or by an earlier one. *)
Lemma globalScope_built T o s :
  cache_coherent isSubtype s ->
  exists o',
    fst (fst (globalScope isSubtype T o s))
    = MapScope (elements_of_type isSubtype (default "" T) (allElements s))
               None o'.
Proof.
  intros Hco. pose proof (flattened_coherent _ Hco) as Hflat.
  destruct Hco as [_ Hcache].
  destruct (globalScopeCache s !! default "" T) as [cached|] eqn:E.
  - rewrite (globalScope_hit _ o _ _ E). simpl. exact (Hcache _ _ E).
  - rewrite (globalScope_miss _ o _ E). simpl. exists o. now rewrite Hflat.
Qed.

(** After a call of [globalScope] the cache holds, under the filter of
    the call, the scope the call returned. *)
Lemma globalScope_cached T o s :
  globalScopeCache (snd (fst (globalScope isSubtype T o s))) !! default "" T
  = Some (fst (fst (globalScope isSubtype T o s))).
Proof.
  destruct (globalScopeCache s !! default "" T) as [cached|] eqn:E.
  - now rewrite (globalScope_hit _ o _ _ E).
  - rewrite (globalScope_miss _ o _ E). simpl. apply lookup_insert_eq.
Qed.

Lemma globalScope_run_coherent queries s :
  cache_coherent isSubtype s ->
  cache_coherent isSubtype (globalScope_run isSubtype queries s)
  /\ simpleIndex (globalScope_run isSubtype queries s) = simpleIndex s.
Proof.
  revert s. induction queries as [|[T o] queries IH]; intros s Hco.
  - now split.
  - simpl. destruct (IH _ (globalScope_coherent T o s Hco)) as [H1 H2].
    split; [exact H1|]. rewrite H2. apply globalScope_indices.
Qed.

(** *** What [remove] does *)

Lemma remove_cons u uris s :
  remove (u :: uris) s = remove uris (remove_step s u).
Proof. reflexivity. Qed.

Lemma remove_step_cleared s u : caches_cleared (remove_step s u).
Proof. now split. Qed.

Lemma remove_cleared uris s :
  caches_cleared s -> caches_cleared (remove uris s).
Proof.
  revert s. induction uris as [|u uris IH]; intros s Hs; [exact Hs|].
  rewrite remove_cons. apply IH, remove_step_cleared.
Qed.

Lemma remove_nonempty_cleared uris s :
  uris <> [] -> caches_cleared (remove uris s).
Proof.
  destruct uris as [|u uris]; [congruence|]. intros _.
  rewrite remove_cons. apply remove_cleared, remove_step_cleared.
Qed.

Lemma remove_coherent uris s :
  cache_coherent isSubtype s -> cache_coherent isSubtype (remove uris s).
Proof.
  destruct uris as [|u uris]; [auto|]. intros _.
  apply cleared_coherent, remove_nonempty_cleared. discriminate.
Qed.

Lemma remove_index_wf uris s : index_wf s -> index_wf (remove uris s).
Proof.
  revert s. induction uris as [|u uris IH]; intros s Hs; [exact Hs|].
  rewrite remove_cons. apply IH. destruct Hs as [H1 H2].
  split; simpl; now apply JsMapFacts.wf_delete.
Qed.

Lemma remove_nodes_cleared uris s :
  nodes_cleared s -> nodes_cleared (remove uris s).
Proof.
  revert s. induction uris as [|u uris IH]; intros s Hs; [exact Hs|].
  rewrite remove_cons. apply IH. unfold nodes_cleared, allElements in *.
  rewrite Forall_forall in *. intros x Hx. apply Hs.
  simpl in Hx. now apply JsMapFacts.In_flat_delete in Hx.
Qed.

(** *** What [updateContent] and [updateReferences] do *)

Lemma updateContent_returns d tok s services exports :
  getServices (uri d) = Returned services ->
  computeExports services d (default CancellationToken_None tok)
    = Returned exports ->
  updateContent getServices d tok s
  = (Returned tt,
     set_state d IndexedContent,
     {| simpleIndex :=
          JsMap.set (URI_toString (uri d)) (map clear_node exports) (simpleIndex s);
        referenceIndex := referenceIndex s;
        globalScopeCache := ∅;
        allElementsCache := [] |}).
Proof. intros H1 H2. unfold updateContent. now rewrite H1, H2. Qed.

Lemma updateContent_throws d tok s services e :
  getServices (uri d) = Returned services ->
  computeExports services d (default CancellationToken_None tok) = Thrown e ->
  updateContent getServices d tok s
  = (Thrown e, d,
     {| simpleIndex := simpleIndex s;
        referenceIndex := referenceIndex s;
        globalScopeCache := ∅;
        allElementsCache := [] |}).
Proof. intros H1 H2. unfold updateContent. now rewrite H1, H2. Qed.

(** A call of [updateContent] that returns went through the extractor. *)
Lemma updateContent_returned d tok s d' s' :
  updateContent getServices d tok s = (Returned tt, d', s') ->
  exists services exports,
    getServices (uri d) = Returned services
    /\ computeExports services d (default CancellationToken_None tok)
       = Returned exports
    /\ d' = set_state d IndexedContent
    /\ s' = {| simpleIndex :=
                 JsMap.set (URI_toString (uri d)) (map clear_node exports)
                           (simpleIndex s);
               referenceIndex := referenceIndex s;
               globalScopeCache := ∅;
               allElementsCache := [] |}.
Proof.
  unfold updateContent.
  destruct (getServices (uri d)) as [services|e] eqn:E1; [|discriminate].
  destruct (computeExports services d _) as [exports|e] eqn:E2; [|discriminate].
  intros [= <- <-]. now exists services, exports.
Qed.

Lemma updateContent_cleared d tok s :
  caches_cleared (snd (updateContent getServices d tok s)).
Proof.
  unfold updateContent.
  destruct (getServices (uri d)) as [services|e]; [|now split].
  destruct (computeExports services d _); now split.
Qed.

Lemma updateReferences_returns d tok s services indexData :
  getServices (uri d) = Returned services ->
  createDescriptions services d (default CancellationToken_None tok)
    = Returned indexData ->
  updateReferences getServices d tok s
  = (Returned tt,
     set_state d IndexedReferences,
     {| simpleIndex := simpleIndex s;
        referenceIndex :=
          JsMap.set (URI_toString (uri d)) indexData (referenceIndex s);
        globalScopeCache := globalScopeCache s;
        allElementsCache := allElementsCache s |}).
Proof. intros H1 H2. unfold updateReferences. now rewrite H1, H2. Qed.

Lemma updateReferences_throws d tok s services e :
  getServices (uri d) = Returned services ->
  createDescriptions services d (default CancellationToken_None tok)
    = Thrown e ->
  updateReferences getServices d tok s = (Thrown e, d, s).
Proof. intros H1 H2. unfold updateReferences. now rewrite H1, H2. Qed.

Lemma updateReferences_returned d tok s d' s' :
  updateReferences getServices d tok s = (Returned tt, d', s') ->
  exists services indexData,
    getServices (uri d) = Returned services
    /\ createDescriptions services d (default CancellationToken_None tok)
       = Returned indexData
    /\ d' = set_state d IndexedReferences
    /\ s' = {| simpleIndex := simpleIndex s;
               referenceIndex :=
                 JsMap.set (URI_toString (uri d)) indexData (referenceIndex s);
               globalScopeCache := globalScopeCache s;
               allElementsCache := allElementsCache s |}.
Proof.
  unfold updateReferences.
  destruct (getServices (uri d)) as [services|e] eqn:E1; [|discriminate].
  destruct (createDescriptions services d _) as [indexData|e] eqn:E2;
    [|discriminate].
  intros [= <- <-]. now exists services, indexData.
Qed.

(** [updateReferences] leaves the symbol index and both caches alone. *)
Lemma updateReferences_symbols d tok s :
  let s' := snd (updateReferences getServices d tok s) in
  simpleIndex s' = simpleIndex s
  /\ globalScopeCache s' = globalScopeCache s
  /\ allElementsCache s' = allElementsCache s.
Proof.
  unfold updateReferences.
  destruct (getServices (uri d)) as [services|e]; [|now simpl].
  destruct (createDescriptions services d _); now simpl.
Qed.

Lemma clear_node_cleared exports :
  Forall (fun e => node e = None) (map clear_node exports).
Proof. apply Forall_forall. intros x [e [<- _]]%in_map_iff. reflexivity. Qed.

(** *** The invariants hold in every reachable manager *)

Lemma reachable_coherent s : reachable isSubtype getServices s ->
  cache_coherent isSubtype s.
Proof.
  induction 1 as [|s T o _ IH|s uris _ IH|s d tok _ IH|s d tok _ IH].
  - now apply cleared_coherent.
  - now apply globalScope_coherent.
  - now apply remove_coherent.
  - apply cleared_coherent, updateContent_cleared.
  - destruct (updateReferences_symbols d tok s) as (Hs & Hc & Ha).
    destruct IH as [Hflat Hcache]. unfold cache_coherent, allElements.
    rewrite Hs, Hc, Ha. now split.
Qed.

Lemma reachable_index_wf s : reachable isSubtype getServices s -> index_wf s.
Proof.
  induction 1 as [|s T o _ IH|s uris _ IH|s d tok _ IH|s d tok _ IH].
  - split; constructor.
  - destruct (globalScope_indices T o s) as [H1 H2].
    unfold index_wf. now rewrite H1, H2.
  - now apply remove_index_wf.
  - destruct IH as [H1 H2]. unfold updateContent.
    destruct (getServices (uri d)) as [services|e]; [|now split].
    destruct (computeExports services d _); [|now split].
    split; simpl; [now apply JsMapFacts.wf_set | assumption].
  - destruct IH as [H1 H2]. unfold updateReferences.
    destruct (getServices (uri d)) as [services|e]; [|now split].
    destruct (createDescriptions services d _); [|now split].
    split; simpl; [assumption | now apply JsMapFacts.wf_set].
Qed.

(** X15: no description in the symbol index of a reachable manager keeps
    an AST node. *)
Lemma reachable_nodes_cleared s :
  reachable isSubtype getServices s -> nodes_cleared s.
Proof.
  induction 1 as [|s T o _ IH|s uris _ IH|s d tok _ IH|s d tok _ IH].
  - constructor.
  - destruct (globalScope_indices T o s) as [H1 _].
    unfold nodes_cleared, allElements. now rewrite H1.
  - now apply remove_nodes_cleared.
  - unfold updateContent.
    destruct (getServices (uri d)) as [services|e]; [|exact IH].
    destruct (computeExports services d _) as [exports|e]; [|exact IH].
    unfold nodes_cleared, allElements in *. simpl.
    rewrite Forall_forall in *. intros x Hx.
    apply JsMapFacts.In_flat_set in Hx as [Hx | Hx]; [|now apply IH].
    pose proof (clear_node_cleared exports) as Hc.
    rewrite Forall_forall in Hc. now apply Hc.
  - destruct (updateReferences_symbols d tok s) as (Hs & _).
    unfold nodes_cleared, allElements. now rewrite Hs.
Qed.

(** *** Failure of an extractor *)

(** C2: when the extractor called by [updateContent] (resp.
    [updateReferences]) raises, cancellation or failure alike, the call
    completes with that same exception, the document is as it was (its
    lifecycle state included), nothing is stored and both indices are as
    they were. *)
Theorem extractor_raises_nothing_stored d tok s services e :
  getServices (uri d) = Returned services ->
  (computeExports services d (default CancellationToken_None tok) = Thrown e ->
   let '(r, d', s') := updateContent getServices d tok s in
   r = Thrown e /\ d' = d
   /\ simpleIndex s' = simpleIndex s /\ referenceIndex s' = referenceIndex s)
  /\ (createDescriptions services d (default CancellationToken_None tok)
        = Thrown e ->
      let '(r, d', s') := updateReferences getServices d tok s in
      r = Thrown e /\ d' = d
      /\ simpleIndex s' = simpleIndex s /\ referenceIndex s' = referenceIndex s).
Proof.
  intros Hsvc. split; intros Hraise.
  - now rewrite (updateContent_throws _ _ _ _ _ Hsvc Hraise).
  - now rewrite (updateReferences_throws _ _ _ _ _ Hsvc Hraise).
Qed.

(** *** Invalidation of the global scope cache *)

(** From a manager whose two caches are empty, every [globalScope] call,
    whatever its filter and whatever [globalScope] calls came before it,
    returns a scope built from the symbol index as it is. *)
Lemma cleared_globalScope_fresh s :
  caches_cleared s ->
  forall queries T o,
    exists o',
      fst (fst (globalScope isSubtype T o
                  (globalScope_run isSubtype queries s)))
      = MapScope (elements_of_type isSubtype (default "" T) (allElements s))
                 None o'.
Proof.
  intros Hcl queries T o.
  destruct (globalScope_run_coherent queries s (cleared_coherent _ Hcl))
    as [Hco Hidx].
  destruct (globalScope_built T o _ Hco) as [o' Ho'].
  exists o'. rewrite Ho'. unfold allElements. now rewrite Hidx.
Qed.

(** The second half of [updateContent] touches neither cache: they are
    after it what they were when it resumed. *)
Lemma updateContent_resume_caches d outcome s :
  globalScopeCache (snd (updateContent_resume d outcome s)) = globalScopeCache s
  /\ allElementsCache (snd (updateContent_resume d outcome s))
     = allElementsCache s.
Proof. destruct outcome; now split. Qed.

(** *** The cache hit *)

(** C6: of two consecutive [globalScope] calls with the same filter, the
    second returns the scope the first returned and makes no call to
    [isSubtype]. *)
Theorem globalScope_twice_same_no_isSubtype T o s :
  let '(r1, s1, _) := globalScope isSubtype T o s in
  let '(r2, _, calls2) := globalScope isSubtype T o s1 in
  r2 = r1 /\ calls2 = [].
Proof.
  pose proof (globalScope_cached T o s) as Hc.
  destruct (globalScope isSubtype T o s) as [[r1 s1] calls1].
  simpl in Hc. now rewrite (globalScope_hit _ o _ _ Hc).
Qed.

(** C7: the cache is keyed by the filter alone.  When [globalScope(T, o1)]
    builds the scope (no entry for [T] yet), a following
    [globalScope(T, o2)] returns that very scope, built with [o1]; and
    in any case the second call returns what the first returned, so [o2]
    plays no part. *)
Theorem globalScope_options_not_in_key T o1 o2 s :
  globalScopeCache s !! default "" T = None ->
  let '(r1, s1, _) := globalScope isSubtype T o1 s in
  let '(r2, _, _) := globalScope isSubtype T o2 s1 in
  r2 = r1
  /\ r2 = MapScope (elements_of_type isSubtype (default "" T) (flattened s))
                   None o1
  /\ scope_options r2 = o1.
Proof.
  intros Hmiss. pose proof (globalScope_cached T o1 s) as Hc.
  pose proof (globalScope_miss _ o1 _ Hmiss) as Hm.
  destruct (globalScope isSubtype T o1 s) as [[r1 s1] calls1].
  simpl in Hc. rewrite (globalScope_hit _ o2 _ _ Hc).
  injection Hm as -> _ _. now repeat split.
Qed.

(** Whatever the cache holds, the options of a second call are ignored. *)
Lemma globalScope_second_options_ignored T o1 o2 s :
  fst (fst (globalScope isSubtype T o2
              (snd (fst (globalScope isSubtype T o1 s)))))
  = fst (fst (globalScope isSubtype T o1 s)).
Proof.
  pose proof (globalScope_cached T o1 s) as Hc.
  now rewrite (globalScope_hit _ o2 _ _ Hc).
Qed.

(** *** A successful [updateContent] *)

(** C8: when [updateContent] returns, the list stored under the
    document's identifier is the extractor's list with the node of every
    description removed, and the document is in state [IndexedContent]. *)
Theorem updateContent_stores_node_free d tok s d' s' :
  updateContent getServices d tok s = (Returned tt, d', s') ->
  exists services exports,
    getServices (uri d) = Returned services
    /\ computeExports services d (default CancellationToken_None tok)
       = Returned exports
    /\ JsMap.get (URI_toString (uri d)) (simpleIndex s')
       = Some (map clear_node exports)
    /\ Forall (fun e => node e = None) (map clear_node exports)
    /\ uri d' = uri d
    /\ state d' = IndexedContent.
Proof.
  intros Hup.
  apply updateContent_returned in Hup
    as (services & exports & Hsvc & Hexp & -> & ->).
  exists services, exports. repeat split; auto.
  - simpl. apply JsMapFacts.get_set_eq.
  - apply clear_node_cleared.
Qed.

(** *** Frame *)

(** C9: for documents [A] and [B] with distinct identifiers, a
    successful [updateContent(A)] (resp. [updateReferences(A)]) leaves
    the entry of [B] in the symbol (resp. reference) index and the whole
    other index as they were; the entry of [A] becomes the new list
    alone; and each index still holds at most one list per identifier. *)
Theorem update_replaces_only_own_entry A B tok s :
  index_wf s ->
  uri A <> uri B ->
  (forall A' s',
      updateContent getServices A tok s = (Returned tt, A', s') ->
      JsMap.get (URI_toString (uri B)) (simpleIndex s')
      = JsMap.get (URI_toString (uri B)) (simpleIndex s)
      /\ referenceIndex s' = referenceIndex s
      /\ (exists services exports,
            getServices (uri A) = Returned services
            /\ computeExports services A (default CancellationToken_None tok)
               = Returned exports
            /\ JsMap.get (URI_toString (uri A)) (simpleIndex s')
               = Some (map clear_node exports))
      /\ index_wf s')
  /\ (forall A' s',
        updateReferences getServices A tok s = (Returned tt, A', s') ->
        JsMap.get (URI_toString (uri B)) (referenceIndex s')
        = JsMap.get (URI_toString (uri B)) (referenceIndex s)
        /\ simpleIndex s' = simpleIndex s
        /\ (exists services indexData,
              getServices (uri A) = Returned services
              /\ createDescriptions services A
                   (default CancellationToken_None tok) = Returned indexData
              /\ JsMap.get (URI_toString (uri A)) (referenceIndex s')
                 = Some indexData)
        /\ index_wf s').
Proof.
  intros [Hw1 Hw2] Hne. split; intros A' s' Hup.
  - apply updateContent_returned in Hup
      as (services & exports & Hsvc & Hexp & -> & ->).
    simpl. repeat split.
    + now apply JsMapFacts.get_set_ne.
    + exists services, exports. repeat split; auto.
      apply JsMapFacts.get_set_eq.
    + now apply JsMapFacts.wf_set.
    + assumption.
  - apply updateReferences_returned in Hup
      as (services & indexData & Hsvc & Hdesc & -> & ->).
    simpl. repeat split.
    + now apply JsMapFacts.get_set_ne.
    + exists services, indexData. repeat split; auto.
      apply JsMapFacts.get_set_eq.
    + assumption.
    + now apply JsMapFacts.wf_set.
Qed.

(** *** Removal *)

Lemma remove_absent uris s :
  (forall u, In u uris ->
     JsMap.get (URI_toString u) (simpleIndex s) = None
     /\ JsMap.get (URI_toString u) (referenceIndex s) = None) ->
  simpleIndex (remove uris s) = simpleIndex s
  /\ referenceIndex (remove uris s) = referenceIndex s.
Proof.
  revert s. induction uris as [|u uris IH]; intros s Habs; [now split|].
  rewrite remove_cons.
  destruct (Habs u (or_introl eq_refl)) as [H1 H2].
  assert (Hs : simpleIndex (remove_step s u) = simpleIndex s)
    by (simpl; now apply JsMapFacts.delete_absent).
  assert (Hr : referenceIndex (remove_step s u) = referenceIndex s)
    by (simpl; now apply JsMapFacts.delete_absent).
  destruct (IH (remove_step s u)) as [IH1 IH2].
  - intros u' Hu'. rewrite Hs, Hr. apply Habs. now right.
  - rewrite IH1, IH2. now split.
Qed.

(** C10: [remove] of no uri returns the manager as it was, caches
    included; [remove] of at least one uri leaves the global scope cache
    with no entry and the flattened list empty, also when no given uri
    has an entry in either index, in which case the indices are as they
    were. *)
Theorem remove_empty_noop_nonempty_clears uris s :
  remove [] s = s
  /\ (uris <> [] ->
      caches_cleared (remove uris s)
      /\ ((forall u, In u uris ->
             JsMap.get (URI_toString u) (simpleIndex s) = None
             /\ JsMap.get (URI_toString u) (referenceIndex s) = None) ->
          simpleIndex (remove uris s) = simpleIndex s
          /\ referenceIndex (remove uris s) = referenceIndex s)).
Proof.
  split; [reflexivity|]. intros Hne. split.
  - now apply remove_nonempty_cleared.
  - apply remove_absent.
Qed.

End IndexManagerFacts.

(** ** The queries on the reference index *)
Section QueryFacts.

Implicit Types (s : DefaultIndexManager) (D e : LangiumDocument)
  (r : ReferenceDescription).

(** *** Reference lookup *)

Lemma push_matching (keep : ReferenceDescription -> bool) docRefs result :
  fold_left (fun result r => if keep r then result ++ [r] else result)
            docRefs result
  = result ++ List.filter keep docRefs.
Proof.
  revert result. induction docRefs as [|r docRefs IH]; intros result; simpl.
  - now rewrite app_nil_r.
  - rewrite IH. destruct (keep r); [|reflexivity].
    now rewrite <- app_assoc.
Qed.

Lemma push_matching_all (keep : ReferenceDescription -> bool) lists result :
  fold_left
    (fun result docRefs =>
       fold_left (fun result r => if keep r then result ++ [r] else result)
                 docRefs result)
    lists result
  = result ++ List.filter keep (concat lists).
Proof.
  revert result. induction lists as [|docRefs lists IH]; intros result; simpl.
  - now rewrite app_nil_r.
  - rewrite IH, push_matching, filter_app. now rewrite app_assoc.
Qed.

Lemma points_at_true target p r :
  points_at target p r = true <-> targetUri r = target /\ targetPath r = p.
Proof.
  unfold points_at, equalURI, URI_toString.
  now rewrite andb_true_iff, !String.eqb_eq.
Qed.

(** C5: [findAllReferences(targetNode, path)] returns the stored
    reference descriptions whose target identifier is that of the
    document owning [targetNode] and whose target path is [path], each as
    often as it is stored, in the order of the index (entries in
    insertion order, descriptions in the order of their list); a
    description is returned exactly when some document's entry holds it
    and it points at that identifier and path. *)
Theorem findAllReferences_exactly_matching targetNode astNodePath s :
  JsMap.wf (referenceIndex s) ->
  findAllReferences targetNode astNodePath s
  = List.filter (points_at (uri (getDocument targetNode)) astNodePath)
                (concat (JsMap.values (referenceIndex s)))
  /\ forall r,
      In r (findAllReferences targetNode astNodePath s)
      <-> (exists docUri refs,
             JsMap.get docUri (referenceIndex s) = Some refs /\ In r refs)
          /\ targetUri r = uri (getDocument targetNode)
          /\ targetPath r = astNodePath.
Proof.
  intros Hwf.
  assert (Heq : findAllReferences targetNode astNodePath s
                = List.filter (points_at (uri (getDocument targetNode)) astNodePath)
                              (concat (JsMap.values (referenceIndex s)))).
  { unfold findAllReferences.
    exact (push_matching_all
             (points_at (uri (getDocument targetNode)) astNodePath) _ []). }
  split; [exact Heq|]. intros r.
  rewrite Heq, filter_In, points_at_true, in_concat.
  split.
  - intros [(refs & Hrefs & Hr) Hpt]. split; [|exact Hpt].
    apply (JsMapFacts.In_values _ _ Hwf) in Hrefs as [docUri Hget].
    now exists docUri, refs.
  - intros [(docUri & refs & Hget & Hr) Hpt]. split; [|exact Hpt].
    exists refs. split; [|exact Hr].
    apply (JsMapFacts.In_values _ _ Hwf). now exists docUri.
Qed.

(** *** Affected documents *)

Lemma has_error_true (x : Reference) : has_error x = true <-> error x <> None.
Proof. unfold has_error. destruct (error x); split; congruence. Qed.

Lemma carries_error_existsb D :
  existsb (fun x => has_error x) (references D) = true <-> carries_error D.
Proof.
  unfold carries_error. rewrite existsb_exists.
  split; intros [x [Hin Hx]]; exists x; split; auto; now apply has_error_true.
Qed.

(** [isAffected(document, changed)] holds when the document has a linking
    error or its entry holds a non-local reference to [changed]. *)
Lemma isAffected_true D changed s :
  isAffected D changed s = true
  <-> carries_error D \/ refers_to_changed [changed] s D.
Proof.
  unfold isAffected, refers_to_changed.
  destruct (existsb _ (references D)) eqn:Eerr.
  - apply carries_error_existsb in Eerr. tauto.
  - assert (Hno : ~ carries_error D).
    { intros H. apply carries_error_existsb in H. congruence. }
    destruct (JsMap.get _ (referenceIndex s)) as [refs|] eqn:Eget.
    + rewrite existsb_exists. split.
      * intros [r [Hin Hr]]. right.
        apply filter_In in Hin as [Hin Hloc].
        apply String.eqb_eq in Hr. exists refs, r.
        repeat split; auto.
        -- now destruct (local r).
        -- left. symmetry. exact Hr.
      * intros [Herr | (refs' & r & [= <-] & Hin & Hloc & [Ht | []])];
          [contradiction|].
        exists r. split.
        -- apply filter_In. split; [exact Hin|]. now rewrite Hloc.
        -- apply String.eqb_eq. symmetry. exact Ht.
    + split; [discriminate|].
      intros [Herr | (refs' & r & Hget & _)]; [contradiction|discriminate].
Qed.

Lemma isAffected_loop_true D uris s :
  isAffected_loop D uris s = true
  <-> (uris <> [] /\ carries_error D) \/ refers_to_changed uris s D.
Proof.
  induction uris as [|u uris IH]; simpl.
  - split; [discriminate|].
    intros [[H _] | (refs & r & _ & _ & _ & [])]. congruence.
  - destruct (isAffected D u s) eqn:E.
    + apply isAffected_true in E. split; [intros _|reflexivity].
      destruct E as [Herr | (refs & r & Hget & Hin & Hloc & [Ht | []])].
      * left. split; [discriminate | exact Herr].
      * right. exists refs, r. repeat split; auto. now left.
    + assert (Hn : ~ (carries_error D \/ refers_to_changed [u] s D)).
      { intros H. apply isAffected_true in H. congruence. }
      rewrite IH. split.
      * intros [[_ Herr] | (refs & r & Hget & Hin & Hloc & Ht)].
        -- exfalso. apply Hn. now left.
        -- right. exists refs, r. repeat split; auto. now right.
      * intros [[_ Herr] | (refs & r & Hget & Hin & Hloc & [Ht | Ht])].
        -- exfalso. apply Hn. now left.
        -- exfalso. apply Hn. right. exists refs, r.
           repeat split; auto. now left.
        -- right. now exists refs, r.
Qed.

Lemma changed_existsb D uris :
  existsb (fun u => equalURI (uri D) u) uris = true <-> In (uri D) uris.
Proof.
  rewrite existsb_exists. unfold equalURI, URI_toString. split.
  - intros [u [Hin Heq]]. apply String.eqb_eq in Heq. now subst.
  - intros Hin. exists (uri D). split; [exact Hin | apply String.eqb_refl].
Qed.

(** C4, as the code has it: [getAffectedDocuments(changedIds)] keeps, in
    the order of the document collection, the documents whose identifier
    is not in [changedIds] and that either carry a reference-resolution
    error while [changedIds] is not empty, or whose reference index entry
    holds a reference with [local = false] and a target in
    [changedIds]. *)
Theorem getAffectedDocuments_exactly changedIds all s :
  exists keep,
    getAffectedDocuments changedIds all s = List.filter keep all
    /\ (forall D, keep D = true <-> affected_as_computed changedIds s D)
    /\ (forall D, In D (getAffectedDocuments changedIds all s)
                  <-> In D all /\ affected_as_computed changedIds s D).
Proof.
  set (keep := fun e : LangiumDocument =>
                 if existsb (fun u => equalURI (uri e) u) changedIds
                 then false
                 else isAffected_loop e changedIds s).
  assert (Hkeep : forall D,
             keep D = true <-> affected_as_computed changedIds s D).
  { intros D. unfold keep, affected_as_computed.
    destruct (existsb _ changedIds) eqn:E.
    - apply changed_existsb in E. split; [discriminate | tauto].
    - assert (Hn : ~ In (uri D) changedIds).
      { intros H. apply changed_existsb in H. congruence. }
      rewrite isAffected_loop_true. tauto. }
  exists keep. split; [reflexivity|]. split; [exact Hkeep|].
  intros D. unfold getAffectedDocuments. fold keep.
  now rewrite filter_In, Hkeep.
Qed.

End QueryFacts.

(** ** The small workspace *)

Import Scenario.

Lemma indexed_reachable : reachable isSubtype getServices indexed.
Proof.
  unfold indexed, indexedAB, indexedA.
  apply reach_updateReferences, reach_updateContent, reach_updateContent.
  apply reach_new.
Qed.

(** X14: in a reachable manager the scope of [globalScope(T)] holds the
    stored descriptions whose type passes [isSubtype(type, T)], with
    [T = ''] when no filter is given. *)
Lemma globalScope_reachable_filter
    (isSubtype : string -> string -> bool)
    (getServices : URI -> Completion LangiumServices) T o s :
  reachable isSubtype getServices s ->
  scope_elements (fst (fst (globalScope isSubtype T o s)))
  = elements_of_type isSubtype (default "" T) (allElements s)
  /\ forall e,
      In e (scope_elements (fst (fst (globalScope isSubtype T o s))))
      <-> (exists docUri descriptions,
             JsMap.get docUri (simpleIndex s) = Some descriptions
             /\ In e descriptions)
          /\ isSubtype (type e) (default "" T) = true.
Proof.
  intros Hreach.
  pose proof (reachable_coherent _ _ _ Hreach) as Hco.
  destruct (reachable_index_wf _ _ _ Hreach) as [Hwf _].
  rewrite (globalScope_elements _ T o s Hco). split; [reflexivity|].
  intros e. unfold elements_of_type, allElements.
  rewrite filter_In, in_concat. split.
  - intros [(l & Hl & He) Hsub]. split; [|exact Hsub].
    apply (JsMapFacts.In_values _ _ Hwf) in Hl as [docUri Hget].
    now exists docUri, l.
  - intros [(docUri & l & Hget & He) Hsub]. split; [|exact Hsub].
    exists l. split; [|exact He].
    apply (JsMapFacts.In_values _ _ Hwf). now exists docUri.
Qed.

(** C1: with the subtype relation of a generated reflection, a symbol
    index that holds the descriptions of [x] and [m], and no filter given,
    [globalScope()] returns a scope with no element, where the interface
    promises the descriptions of all types: the default filter [''] is
    passed to [isSubtype] like any other. *)
Theorem globalScope_without_filter_is_filtered :
  allElements indexed
  = [ {| node := None; name := "x"; type := "Definition";
         documentUri := uriA; path := xPath |};
      {| node := None; name := "m"; type := "Module";
         documentUri := uriB; path := "" |} ]
  /\ globalScope isSubtype None None indexed
     = (MapScope [] None None,
        {| simpleIndex := simpleIndex indexed;
           referenceIndex := referenceIndex indexed;
           globalScopeCache := {[ "" := MapScope [] None None ]};
           allElementsCache := allElements indexed |},
        [("Definition", ""); ("Module", "")]).
Proof. split; reflexivity. Qed.

Lemma extractor_raises_nothing_stored_witness :
  (let '(r, d', s') := updateContent getServices docA (Some cancelled) indexed in
   r = Thrown OperationCancelled /\ d' = docA
   /\ simpleIndex s' = simpleIndex indexed
   /\ referenceIndex s' = referenceIndex indexed)
  /\ (let '(r, d', s') :=
        updateReferences getServices docA (Some cancelled) indexed in
      r = Thrown OperationCancelled /\ d' = docA
      /\ simpleIndex s' = simpleIndex indexed
      /\ referenceIndex s' = referenceIndex indexed).
Proof.
  split.
  - apply (proj1 (extractor_raises_nothing_stored getServices docA
                    (Some cancelled) indexed calcServices OperationCancelled
                    eq_refl)).
    reflexivity.
  - apply (proj2 (extractor_raises_nothing_stored getServices docA
                    (Some cancelled) indexed calcServices OperationCancelled
                    eq_refl)).
    reflexivity.
Defined.

Lemma globalScope_options_not_in_key_witness :
  globalScopeCache indexed !! default "" (Some "AbstractDefinition") = None
  /\ (let '(r1, s1, _) :=
        globalScope isSubtype (Some "AbstractDefinition")
                    (Some caseInsensitive') indexed in
      let '(r2, _, _) :=
        globalScope isSubtype (Some "AbstractDefinition")
                    (Some caseSensitive) s1 in
      r2 = r1
      /\ r2 = MapScope (elements_of_type isSubtype
                          (default "" (Some "AbstractDefinition"))
                          (flattened indexed))
                       None (Some caseInsensitive')
      /\ scope_options r2 = Some caseInsensitive').
Proof.
  split; [reflexivity|].
  apply (globalScope_options_not_in_key isSubtype (Some "AbstractDefinition")
           (Some caseInsensitive') (Some caseSensitive) indexed).
  reflexivity.
Defined.

Lemma updateContent_stores_node_free_witness :
  updateContent getServices docA None new_DefaultIndexManager
  = (Returned tt, set_state docA IndexedContent, indexedA)
  /\ exists services exports,
      getServices (uri docA) = Returned services
      /\ computeExports services docA (default CancellationToken_None None)
         = Returned exports
      /\ JsMap.get (URI_toString (uri docA)) (simpleIndex indexedA)
         = Some (map clear_node exports)
      /\ Forall (fun e => node e = None) (map clear_node exports)
      /\ uri (set_state docA IndexedContent) = uri docA
      /\ state (set_state docA IndexedContent) = IndexedContent.
Proof.
  split; [reflexivity|].
  apply (updateContent_stores_node_free getServices docA None
           new_DefaultIndexManager (set_state docA IndexedContent) indexedA).
  reflexivity.
Defined.

Lemma indexed_index_wf : index_wf indexed.
Proof. exact (reachable_index_wf _ _ _ indexed_reachable). Qed.

Lemma update_replaces_only_own_entry_witness :
  index_wf indexed
  /\ uri docA <> uri docB
  /\ JsMap.get (URI_toString (uri docB))
       (simpleIndex (snd (updateContent getServices docA None indexed)))
     = JsMap.get (URI_toString (uri docB)) (simpleIndex indexed)
  /\ JsMap.get (URI_toString (uri docB))
       (referenceIndex (snd (updateReferences getServices docA None indexed)))
     = JsMap.get (URI_toString (uri docB)) (referenceIndex indexed).
Proof.
  assert (Hne : uri docA <> uri docB) by discriminate.
  split; [exact indexed_index_wf|]. split; [exact Hne|].
  destruct (update_replaces_only_own_entry getServices docA docB None indexed
              indexed_index_wf Hne) as [Hcontent Hrefs].
  split.
  - exact (proj1 (Hcontent _ _ eq_refl)).
  - exact (proj1 (Hrefs _ _ eq_refl)).
Defined.

Lemma remove_empty_noop_nonempty_clears_witness :
  [uriC] <> []
  /\ remove [] indexed = indexed
  /\ caches_cleared (remove [uriC] indexed)
  /\ simpleIndex (remove [uriC] indexed) = simpleIndex indexed
  /\ referenceIndex (remove [uriC] indexed) = referenceIndex indexed.
Proof.
  assert (Hne : [uriC] <> []) by discriminate.
  destruct (remove_empty_noop_nonempty_clears [uriC] indexed) as [Hnil Hcons].
  destruct (Hcons Hne) as [Hcl Habs].
  split; [exact Hne|]. split; [exact Hnil|]. split; [exact Hcl|].
  apply Habs. intros u [<- | []]. split; reflexivity.
Defined.

Lemma findAllReferences_exactly_matching_witness :
  JsMap.wf (referenceIndex indexed)
  /\ findAllReferences xNode xPath indexed
     = List.filter (points_at (uri (getDocument xNode)) xPath)
                   (concat (JsMap.values (referenceIndex indexed)))
  /\ forall r,
      In r (findAllReferences xNode xPath indexed)
      <-> (exists docUri refs,
             JsMap.get docUri (referenceIndex indexed) = Some refs
             /\ In r refs)
          /\ targetUri r = uri (getDocument xNode)
          /\ targetPath r = xPath.
Proof.
  assert (Hwf : JsMap.wf (referenceIndex indexed))
    by exact (proj2 indexed_index_wf).
  split; [exact Hwf|].
  exact (findAllReferences_exactly_matching xNode xPath indexed Hwf).
Defined.

(** The scenario of the specification: one reference to [x], from [b.calc];
    a change of [a.calc] affects [b.calc], and [c.calc] for its error. *)
Lemma scenario_queries :
  findAllReferences xNode xPath indexed = refsB
  /\ getAffectedDocuments [uriA] [docA; docB; docC] indexed = [docB; docC].
Proof. split; reflexivity. Qed.

(** With no changed document, the document [c.calc], which carries a
    reference-resolution error and whose identifier is not among the
    changed ones, is affected as the specification words it, and
    [getAffectedDocuments] does not return it. *)
Lemma getAffectedDocuments_without_changes_drops_errors :
  In docC [docA; docB; docC]
  /\ affected_as_specified [] indexed docC
  /\ getAffectedDocuments [] [docA; docB; docC] indexed = []
  /\ ~ (In docC (getAffectedDocuments [] [docA; docB; docC] indexed)
        <-> In docC [docA; docB; docC] /\ affected_as_specified [] indexed docC).
Proof.
  assert (Hin : In docC [docA; docB; docC]) by (simpl; tauto).
  assert (Hspec : affected_as_specified [] indexed docC).
  { split; [simpl; tauto|]. left.
    exists {| refText := "y";
              error := Some {| message := "Could not resolve reference" |} |}.
    split; [now left | discriminate]. }
  split; [exact Hin|]. split; [exact Hspec|]. split; [reflexivity|].
  intros [_ H]. exact (H (conj Hin Hspec)).
Qed.

(** * Further properties of the index manager *)

(** ** Deleting several keys *)
Section DeleteAll.

Context {V : Type}.
Implicit Types (k : string) (m : JsMap.t V).

Lemma get_None_delete k k' m :
  JsMap.get k m = None -> JsMap.get k (JsMap.delete k' m) = None.
Proof.
  intros H. destruct (String.string_dec k' k) as [-> | Hne].
  - apply JsMapFacts.get_delete_eq.
  - now rewrite JsMapFacts.get_delete_ne.
Qed.

Lemma get_delete_all_absent k uris m :
  JsMap.get k m = None ->
  JsMap.get k (fold_left (fun m u => JsMap.delete u m) uris m) = None.
Proof.
  revert m. induction uris as [|u uris IH]; intros m H; simpl; [exact H|].
  apply IH. now apply get_None_delete.
Qed.

Lemma get_delete_all_in k uris m :
  In k uris ->
  JsMap.get k (fold_left (fun m u => JsMap.delete u m) uris m) = None.
Proof.
  revert m. induction uris as [|u uris IH]; intros m Hin; simpl; [destruct Hin|].
  destruct (String.string_dec u k) as [-> | Hne].
  - apply get_delete_all_absent, JsMapFacts.get_delete_eq.
  - apply IH. destruct Hin; [contradiction | assumption].
Qed.

Lemma get_delete_all_notin k uris m :
  ~ In k uris ->
  JsMap.get k (fold_left (fun m u => JsMap.delete u m) uris m) = JsMap.get k m.
Proof.
  revert m. induction uris as [|u uris IH]; intros m Hnotin; simpl; [reflexivity|].
  rewrite IH by (simpl in Hnotin; tauto).
  apply JsMapFacts.get_delete_ne. simpl in Hnotin. tauto.
Qed.

Lemma delete_all_absent uris m :
  (forall u, In u uris -> JsMap.get u m = None) ->
  fold_left (fun m u => JsMap.delete u m) uris m = m.
Proof.
  induction uris as [|u uris IH]; intros Habs; simpl; [reflexivity|].
  rewrite JsMapFacts.delete_absent by (apply Habs; now left).
  apply IH. intros u' Hu'. apply Habs. now right.
Qed.

End DeleteAll.

(** ** Removal, queries and updates together *)
Section CompositionFacts.

Variable isSubtype : string -> string -> bool.
Variable getServices : URI -> Completion LangiumServices.

Implicit Types (this s : DefaultIndexManager) (T : option string)
  (o : option ScopeOptions) (d D document : LangiumDocument)
  (tok : option CancellationToken).

Lemma remove_indices uris s :
  simpleIndex (remove uris s)
  = fold_left (fun m u => JsMap.delete u m) uris (simpleIndex s)
  /\ referenceIndex (remove uris s)
     = fold_left (fun m u => JsMap.delete u m) uris (referenceIndex s).
Proof.
  revert s. induction uris as [|u uris IH]; intros s; [now split|].
  rewrite remove_cons. destruct (IH (remove_step s u)) as [H1 H2].
  now rewrite H1, H2.
Qed.

Lemma remove_nonempty_fields uris s :
  uris <> [] ->
  remove uris s
  = {| simpleIndex :=
         fold_left (fun m u => JsMap.delete u m) uris (simpleIndex s);
       referenceIndex :=
         fold_left (fun m u => JsMap.delete u m) uris (referenceIndex s);
       globalScopeCache := ∅;
       allElementsCache := [] |}.
Proof.
  intros Hne. destruct (remove_indices uris s) as [H1 H2].
  destruct (remove_nonempty_cleared uris s Hne) as [H3 H4].
  destruct (remove uris s) as [si ri gc ac]. simpl in *. now subst.
Qed.

Lemma In_allElements e s :
  JsMap.wf (simpleIndex s) ->
  In e (allElements s)
  <-> exists docUri descriptions,
        JsMap.get docUri (simpleIndex s) = Some descriptions
        /\ In e descriptions.
Proof.
  intros Hwf. unfold allElements. rewrite in_concat. split.
  - intros (l & Hl & He).
    apply (JsMapFacts.In_values _ _ Hwf) in Hl as [docUri Hget].
    now exists docUri, l.
  - intros (docUri & l & Hget & He). exists l. split; [|exact He].
    apply (JsMapFacts.In_values _ _ Hwf). now exists docUri.
Qed.

Lemma In_findAllReferences targetNode astNodePath s r :
  JsMap.wf (referenceIndex s) ->
  In r (findAllReferences targetNode astNodePath s)
  <-> (exists docUri refs,
         JsMap.get docUri (referenceIndex s) = Some refs /\ In r refs)
      /\ points_at (uri (getDocument targetNode)) astNodePath r = true.
Proof.
  intros Hwf. unfold findAllReferences.
  rewrite (push_matching_all
             (points_at (uri (getDocument targetNode)) astNodePath) _ []).
  simpl. rewrite filter_In, in_concat. split.
  - intros [(refs & Hrefs & Hr) Hpt]. split; [|exact Hpt].
    apply (JsMapFacts.In_values _ _ Hwf) in Hrefs as [docUri Hget].
    now exists docUri, refs.
  - intros [(docUri & refs & Hget & Hr) Hpt]. split; [|exact Hpt].
    exists refs. split; [|exact Hr].
    apply (JsMapFacts.In_values _ _ Hwf). now exists docUri.
Qed.

(** X1: after [remove(uris)] neither index has an entry for a uri of the
    list, and the entry of every other uri is as it was, in both indices. *)
Theorem remove_deletes_exactly uris s k :
  (In k uris ->
   JsMap.get k (simpleIndex (remove uris s)) = None
   /\ JsMap.get k (referenceIndex (remove uris s)) = None)
  /\ (~ In k uris ->
      JsMap.get k (simpleIndex (remove uris s)) = JsMap.get k (simpleIndex s)
      /\ JsMap.get k (referenceIndex (remove uris s))
         = JsMap.get k (referenceIndex s)).
Proof.
  destruct (remove_indices uris s) as [-> ->]. split; intros Hk.
  - split; now apply get_delete_all_in.
  - split; now apply get_delete_all_notin.
Qed.

(** X2: in a reachable manager, the scope [globalScope(T)] returns right
    after [remove(uris)] holds a description exactly when it is stored
    under a uri that is not in [uris] and its type passes the filter: no
    symbol of a removed document is left in the global scope. *)
Theorem remove_then_globalScope uris T o s :
  reachable isSubtype getServices s ->
  forall e,
    In e (scope_elements
            (fst (fst (globalScope isSubtype T o (remove uris s)))))
    <-> (exists docUri descriptions,
           ~ In docUri uris
           /\ JsMap.get docUri (simpleIndex s) = Some descriptions
           /\ In e descriptions)
        /\ isSubtype (type e) (default "" T) = true.
Proof.
  intros Hreach e.
  pose proof (reach_remove _ _ _ uris Hreach) as Hreach'.
  pose proof (reachable_coherent _ _ _ Hreach') as Hco.
  destruct (reachable_index_wf _ _ _ Hreach') as [Hwf _].
  rewrite (globalScope_elements _ T o _ Hco).
  unfold elements_of_type. rewrite filter_In, (In_allElements _ _ Hwf).
  destruct (remove_indices uris s) as [Hidx _]. rewrite Hidx.
  split; intros [(docUri & l & H) Hsub]; (split; [|exact Hsub]);
    exists docUri, l.
  - destruct H as [Hget He].
    destruct (in_dec String.string_dec docUri uris) as [Hin | Hnotin].
    + rewrite get_delete_all_in in Hget by assumption. discriminate.
    + rewrite get_delete_all_notin in Hget by assumption. now repeat split.
  - destruct H as (Hnotin & Hget & He).
    rewrite get_delete_all_notin by assumption. now split.
Qed.

(** X3: in any manager with one entry per key, [findAllReferences] after
    [remove(uris)] returns a description exactly when it is stored under a
    uri that is not in [uris] and points at the node: references recorded
    for a removed document are no longer found. *)
Theorem remove_then_findAllReferences uris targetNode astNodePath s :
  JsMap.wf (referenceIndex s) ->
  forall r,
    In r (findAllReferences targetNode astNodePath (remove uris s))
    <-> (exists docUri refs,
           ~ In docUri uris
           /\ JsMap.get docUri (referenceIndex s) = Some refs
           /\ In r refs)
        /\ targetUri r = uri (getDocument targetNode)
        /\ targetPath r = astNodePath.
Proof.
  intros Hwf r.
  assert (Hwf' : JsMap.wf (referenceIndex (remove uris s))).
  { clear r. revert s Hwf. induction uris as [|u uris IH]; intros s Hwf; [exact Hwf|].
    rewrite remove_cons. apply IH. simpl. now apply JsMapFacts.wf_delete. }
  rewrite (In_findAllReferences _ _ _ _ Hwf'), points_at_true.
  destruct (remove_indices uris s) as [_ Hidx]. rewrite Hidx.
  split; intros [(docUri & l & H) Hpt]; (split; [|exact Hpt]);
    exists docUri, l.
  - destruct H as [Hget He].
    destruct (in_dec String.string_dec docUri uris) as [Hin | Hnotin].
    + rewrite get_delete_all_in in Hget by assumption. discriminate.
    + rewrite get_delete_all_notin in Hget by assumption. now repeat split.
  - destruct H as (Hnotin & Hget & He).
    rewrite get_delete_all_notin by assumption. now split.
Qed.

(** X4: [remove] is idempotent: removing the same uris a second time
    changes nothing. *)
Theorem remove_idempotent uris s :
  remove uris (remove uris s) = remove uris s.
Proof.
  destruct uris as [|u uris]; [reflexivity|].
  assert (Hne : u :: uris <> []) by discriminate.
  rewrite (remove_nonempty_fields _ (remove (u :: uris) s) Hne).
  rewrite (remove_nonempty_fields _ s Hne). cbn [simpleIndex referenceIndex].
  f_equal; apply delete_all_absent; intros u' Hu';
    now apply get_delete_all_in.
Qed.


(** *** Updates that fail *)

Lemma flattened_cleared s :
  allElementsCache s = [] -> flattened s = allElements s.
Proof. intros H. unfold flattened. now rewrite H. Qed.


(** *** What keeps the cache *)

(** X6: [updateReferences], however it completes, keeps the global scope
    cache: a scope cached under [T] before it is what [globalScope(T)]
    returns after it, with no call to [isSubtype]. *)
Theorem updateReferences_keeps_cached_scopes d tok s T o cached :
  globalScopeCache s !! default "" T = Some cached ->
  fst (fst (globalScope isSubtype T o
              (snd (updateReferences getServices d tok s)))) = cached
  /\ snd (globalScope isSubtype T o
            (snd (updateReferences getServices d tok s))) = [].
Proof.
  intros Hc. destruct (updateReferences_symbols getServices d tok s)
    as (_ & Hcache & _).
  rewrite <- Hcache in Hc. now rewrite (globalScope_hit _ _ o _ _ Hc).
Qed.

Lemma flattened_globalScope T o s :
  flattened (snd (fst (globalScope isSubtype T o s))) = flattened s.
Proof.
  assert (H : forall gc,
             flattened {| simpleIndex := simpleIndex s;
                          referenceIndex := referenceIndex s;
                          globalScopeCache := gc;
                          allElementsCache := flattened s |} = flattened s).
  { intros gc. unfold flattened at 1. simpl.
    destruct (Nat.eqb (length (flattened s)) 0) eqn:E; [|reflexivity].
    unfold flattened in *.
    destruct (Nat.eqb (length (allElementsCache s)) 0) eqn:E';
      [reflexivity | congruence]. }
  destruct (globalScopeCache s !! default "" T) as [cached|] eqn:E.
  - rewrite (globalScope_hit _ _ o _ _ E). apply H.
  - rewrite (globalScope_miss _ _ o _ E). apply H.
Qed.

Lemma globalScope_keeps_entries T o s key cached :
  globalScopeCache s !! key = Some cached ->
  globalScopeCache (snd (fst (globalScope isSubtype T o s))) !! key
  = Some cached.
Proof.
  intros Hk. destruct (globalScopeCache s !! default "" T) as [c|] eqn:E.
  - now rewrite (globalScope_hit _ _ o _ _ E).
  - rewrite (globalScope_miss _ _ o _ E). simpl.
    rewrite lookup_insert_ne; [exact Hk | congruence].
Qed.

Lemma globalScope_run_keeps_entries queries s key cached :
  globalScopeCache s !! key = Some cached ->
  globalScopeCache (globalScope_run isSubtype queries s) !! key = Some cached.
Proof.
  revert s. induction queries as [|[T o] queries IH]; intros s Hk; [exact Hk|].
  simpl. apply IH. now apply globalScope_keeps_entries.
Qed.

(** X7: once [globalScope(T)] has returned a scope, a second call with the
    same filter leaves the manager exactly as the first left it, and after
    any further [globalScope] calls, with any filters and options, a call
    with filter [T] still returns that scope without calling [isSubtype]:
    a query never evicts the entry of another filter. *)
Theorem globalScope_entry_persists T o1 o2 s :
  let '(r1, s1, _) := globalScope isSubtype T o1 s in
  globalScope isSubtype T o2 s1 = (r1, s1, [])
  /\ forall queries o3,
      fst (fst (globalScope isSubtype T o3
                  (globalScope_run isSubtype queries s1))) = r1
      /\ snd (globalScope isSubtype T o3
                (globalScope_run isSubtype queries s1)) = [].
Proof.
  pose proof (globalScope_cached isSubtype T o1 s) as Hc.
  pose proof (flattened_globalScope T o1 s) as Hf.
  assert (Ha : allElementsCache (snd (fst (globalScope isSubtype T o1 s)))
               = flattened s).
  { destruct (globalScopeCache s !! default "" T) as [c|] eqn:E.
    - now rewrite (globalScope_hit _ _ o1 _ _ E).
    - now rewrite (globalScope_miss _ _ o1 _ E). }
  destruct (globalScope isSubtype T o1 s) as [[r1 s1] calls1]. simpl in *.
  split.
  - rewrite (globalScope_hit _ _ o2 _ _ Hc), Hf, <- Ha. now destruct s1.
  - intros queries o3.
    pose proof (globalScope_run_keeps_entries queries _ _ _ Hc) as Hc'.
    now rewrite (globalScope_hit _ _ o3 _ _ Hc').
Qed.


(** *** Affected documents *)

(** X8: with no changed uri, [getAffectedDocuments] returns no document,
    whatever the documents and the reference index hold. *)
Theorem getAffectedDocuments_nil all s : getAffectedDocuments [] all s = [].
Proof.
  unfold getAffectedDocuments. induction all as [|D all IH]; simpl; auto.
Qed.

(** X9: once [updateReferences(d)] has stored a description with
    [local = false] whose target is one of the changed uris, every document
    of the collection with the uri of [d] is reported by
    [getAffectedDocuments], provided that uri is not itself among the
    changed ones. *)
Theorem stored_nonlocal_reference_affects
    d tok s services indexData r changedIds all D :
  getServices (uri d) = Returned services ->
  createDescriptions services d (default CancellationToken_None tok)
    = Returned indexData ->
  In r indexData ->
  local r = false ->
  In (targetUri r) changedIds ->
  ~ In (uri d) changedIds ->
  In D all ->
  uri D = uri d ->
  In D (getAffectedDocuments changedIds all
          (snd (updateReferences getServices d tok s))).
Proof.
  intros Hsvc Hdesc Hr Hloc Ht Hnotin HD Huri.
  rewrite (updateReferences_returns _ _ _ _ _ _ Hsvc Hdesc). simpl.
  unfold getAffectedDocuments. apply filter_In. split; [exact HD|].
  destruct (existsb _ changedIds) eqn:E.
  - apply changed_existsb in E. rewrite Huri in E. contradiction.
  - apply isAffected_loop_true. right. exists indexData, r.
    simpl. rewrite Huri. repeat split; auto.
    apply JsMapFacts.get_set_eq.
Qed.

(** X10: a document with no reference-resolution error whose reference
    index entry, if there is one, holds only local references or
    references to unchanged documents is never reported by
    [getAffectedDocuments]; in particular a document that has no entry. *)
Theorem clean_document_unaffected changedIds all s D :
  ~ carries_error D ->
  (forall refs r,
      JsMap.get (URI_toString (uri D)) (referenceIndex s) = Some refs ->
      In r refs -> local r = true \/ ~ In (targetUri r) changedIds) ->
  ~ In D (getAffectedDocuments changedIds all s).
Proof.
  intros Hclean Hrefs Hin. unfold getAffectedDocuments in Hin.
  apply filter_In in Hin as [_ Hkeep].
  destruct (existsb _ changedIds); [discriminate|].
  apply isAffected_loop_true in Hkeep
    as [[_ Herr] | (refs & r & Hget & Hr & Hloc & Ht)]; [contradiction|].
  destruct (Hrefs refs r Hget Hr) as [H | H]; [congruence | contradiction].
Qed.

(** *** Store, then query *)

(** X11: after a successful [updateReferences(d)] the document is in
    state [IndexedReferences], and [findAllReferences] returns a
    description exactly when it points at the node and is either in the
    list just stored or in the entry of another document: the list stored
    for [d] before no longer counts. *)
Theorem updateReferences_then_findAllReferences d tok s services indexData :
  JsMap.wf (referenceIndex s) ->
  getServices (uri d) = Returned services ->
  createDescriptions services d (default CancellationToken_None tok)
    = Returned indexData ->
  let '(res, d', s') := updateReferences getServices d tok s in
  res = Returned tt
  /\ state d' = IndexedReferences
  /\ forall targetNode astNodePath r,
      In r (findAllReferences targetNode astNodePath s')
      <-> (In r indexData
           \/ exists docUri refs,
               docUri <> URI_toString (uri d)
               /\ JsMap.get docUri (referenceIndex s) = Some refs
               /\ In r refs)
          /\ targetUri r = uri (getDocument targetNode)
          /\ targetPath r = astNodePath.
Proof.
  intros Hwf Hsvc Hdesc.
  rewrite (updateReferences_returns _ _ _ _ _ _ Hsvc Hdesc).
  split; [reflexivity|]. split; [reflexivity|].
  intros targetNode astNodePath r.
  rewrite In_findAllReferences by (simpl; now apply JsMapFacts.wf_set).
  rewrite points_at_true. simpl.
  split; intros [H Hpt]; (split; [|exact Hpt]).
  - destruct H as (docUri & refs & Hget & Hr).
    destruct (String.string_dec (URI_toString (uri d)) docUri) as [<- | Hne].
    + rewrite JsMapFacts.get_set_eq in Hget. injection Hget as <-. now left.
    + rewrite JsMapFacts.get_set_ne in Hget by assumption.
      right. exists docUri, refs. repeat split; auto.
  - destruct H as [Hr | (docUri & refs & Hne & Hget & Hr)].
    + exists (URI_toString (uri d)), indexData.
      split; [apply JsMapFacts.get_set_eq | exact Hr].
    + exists docUri, refs. split; [|exact Hr].
      rewrite JsMapFacts.get_set_ne; auto.
Qed.

(** X12: [updateContent(d)] resets both caches before its [await] and
    stores after it.  When the caches are still empty as it resumes with
    the extractor's list (no [globalScope] call has refilled them in
    between), then after it has returned the scope [globalScope(T)]
    returns holds a description exactly when its type passes the filter
    and it is either one of the descriptions just stored (the extractor's,
    without their nodes) or stored, as the update resumed, for another
    document: what [d] exported before is gone from the global scope. *)
Theorem updateContent_then_globalScope d exports s2 :
  caches_cleared s2 ->
  JsMap.wf (simpleIndex s2) ->
  let '(res, d', s3) := updateContent_resume d (Returned exports) s2 in
  res = Returned tt
  /\ forall T o e,
      In e (scope_elements (fst (fst (globalScope isSubtype T o s3))))
      <-> (In e (map clear_node exports)
           \/ exists docUri descriptions,
               docUri <> URI_toString (uri d)
               /\ JsMap.get docUri (simpleIndex s2) = Some descriptions
               /\ In e descriptions)
          /\ isSubtype (type e) (default "" T) = true.
Proof.
  intros [Hgc Hac] Hwf. unfold updateContent_resume.
  split; [reflexivity|]. intros T o e.
  rewrite globalScope_elements by (apply cleared_coherent; now split).
  unfold elements_of_type. rewrite filter_In.
  rewrite In_allElements by (simpl; now apply JsMapFacts.wf_set). simpl.
  split; intros [H Hsub]; (split; [|exact Hsub]).
  - destruct H as (docUri & l & Hget & He).
    destruct (String.string_dec (URI_toString (uri d)) docUri) as [<- | Hne].
    + rewrite JsMapFacts.get_set_eq in Hget. injection Hget as <-. now left.
    + rewrite JsMapFacts.get_set_ne in Hget by assumption.
      right. exists docUri, l. repeat split; auto.
  - destruct H as [He | (docUri & l & Hne & Hget & He)].
    + exists (URI_toString (uri d)), (map clear_node exports).
      split; [apply JsMapFacts.get_set_eq | exact He].
    + exists docUri, l. split; [|exact He].
      rewrite JsMapFacts.get_set_ne; auto.
Qed.

(** *** A query while [updateContent] is suspended *)

(** Run without interruption, the two halves are [updateContent]. *)
Lemma updateContent_halves d tok s :
  updateContent getServices d tok s
  = updateContent_resume d
      (fst (updateContent_begin getServices d tok s))
      (snd (updateContent_begin getServices d tok s)).
Proof.
  unfold updateContent, updateContent_begin, updateContent_resume.
  destruct (getServices (uri d)) as [services|e]; [|reflexivity].
  simpl. now destruct (computeExports services d _).
Qed.

(** X13: a [globalScope(T)] call made while [updateContent(d)] is
    suspended at its [await] builds its scope from the symbol index as it
    was before the update and caches it; when the update is resumed and
    stores the new descriptions, that entry stays, so a later
    [globalScope(T)] returns the scope of the old index without calling
    [isSubtype]. *)
Theorem globalScope_during_await_stays_cached d tok s exports s1 T o o' :
  updateContent_begin getServices d tok s = (Returned exports, s1) ->
  let '(r, s2, _) := globalScope isSubtype T o s1 in
  let '(res, _, s3) := updateContent_resume d (Returned exports) s2 in
  res = Returned tt
  /\ simpleIndex s3
     = JsMap.set (URI_toString (uri d)) (map clear_node exports) (simpleIndex s)
  /\ r = MapScope (elements_of_type isSubtype (default "" T) (allElements s))
                  None o
  /\ fst (fst (globalScope isSubtype T o' s3)) = r
  /\ snd (globalScope isSubtype T o' s3) = [].
Proof.
  intros Hbegin.
  assert (Hs1 : s1 = {| simpleIndex := simpleIndex s;
                        referenceIndex := referenceIndex s;
                        globalScopeCache := ∅;
                        allElementsCache := [] |}).
  { unfold updateContent_begin in Hbegin.
    destruct (getServices (uri d)); now injection Hbegin as _ <-. }
  subst s1. rewrite globalScope_miss by apply lookup_empty.
  rewrite flattened_cleared by reflexivity.
  unfold updateContent_resume.
  cbn [simpleIndex referenceIndex globalScopeCache allElementsCache].
  split; [reflexivity|]. split; [reflexivity|]. split; [reflexivity|].
  rewrite (globalScope_hit isSubtype T o' _ _ (lookup_insert_eq _ _ _)).
  now split.
Qed.

End CompositionFacts.

(** ** The small workspace, again *)

Lemma remove_deletes_exactly_witness :
  In uriA [uriA] /\ ~ In uriB [uriA]
  /\ JsMap.get uriA (simpleIndex (remove [uriA] indexed)) = None
  /\ JsMap.get uriA (referenceIndex (remove [uriA] indexed)) = None
  /\ JsMap.get uriB (simpleIndex (remove [uriA] indexed))
     = JsMap.get uriB (simpleIndex indexed)
  /\ JsMap.get uriB (referenceIndex (remove [uriA] indexed))
     = JsMap.get uriB (referenceIndex indexed).
Proof.
  assert (HA : In uriA [uriA]) by now left.
  assert (HB : ~ In uriB [uriA]) by (intros [H | []]; discriminate).
  split; [exact HA|]. split; [exact HB|].
  destruct (proj1 (remove_deletes_exactly [uriA] indexed uriA) HA) as [H1 H2].
  destruct (proj2 (remove_deletes_exactly [uriA] indexed uriB) HB) as [H3 H4].
  repeat split; assumption.
Defined.

Lemma remove_then_globalScope_witness :
  reachable isSubtype getServices indexed
  /\ forall e,
      In e (scope_elements
              (fst (fst (globalScope isSubtype (Some "Module") None
                           (remove [uriA] indexed)))))
      <-> (exists docUri descriptions,
             ~ In docUri [uriA]
             /\ JsMap.get docUri (simpleIndex indexed) = Some descriptions
             /\ In e descriptions)
          /\ isSubtype (type e) (default "" (Some "Module")) = true.
Proof.
  split; [exact indexed_reachable|].
  exact (remove_then_globalScope isSubtype getServices [uriA] (Some "Module")
           None indexed indexed_reachable).
Defined.

Lemma remove_then_findAllReferences_witness :
  JsMap.wf (referenceIndex indexed)
  /\ forall r,
      In r (findAllReferences xNode xPath (remove [uriB] indexed))
      <-> (exists docUri refs,
             ~ In docUri [uriB]
             /\ JsMap.get docUri (referenceIndex indexed) = Some refs
             /\ In r refs)
          /\ targetUri r = uri (getDocument xNode)
          /\ targetPath r = xPath.
Proof.
  assert (Hwf : JsMap.wf (referenceIndex indexed))
    by exact (proj2 indexed_index_wf).
  split; [exact Hwf|].
  exact (remove_then_findAllReferences [uriB] xNode xPath indexed Hwf).
Defined.


Lemma updateReferences_keeps_cached_scopes_witness :
  let s := snd (fst (globalScope isSubtype (Some "Module") None indexedAB)) in
  let cached := fst (fst (globalScope isSubtype (Some "Module") None indexedAB)) in
  globalScopeCache s !! default "" (Some "Module") = Some cached
  /\ fst (fst (globalScope isSubtype (Some "Module") (Some caseSensitive)
                 (snd (updateReferences getServices docB None s)))) = cached
  /\ snd (globalScope isSubtype (Some "Module") (Some caseSensitive)
            (snd (updateReferences getServices docB None s))) = [].
Proof.
  intros s cached.
  assert (Hc : globalScopeCache s !! default "" (Some "Module") = Some cached)
    by reflexivity.
  split; [exact Hc|].
  exact (updateReferences_keeps_cached_scopes isSubtype getServices docB None s
           (Some "Module") (Some caseSensitive) cached Hc).
Defined.

Lemma stored_nonlocal_reference_affects_witness :
  In docB (getAffectedDocuments [uriA] [docA; docB; docC]
             (snd (updateReferences getServices docB None indexedAB))).
Proof.
  apply (stored_nonlocal_reference_affects getServices docB None indexedAB
           calcServices refsB
           {| sourceUri := uriB; sourcePath := "/statements@0/expression";
              targetUri := uriA; targetPath := xPath; local := false |}
           [uriA] [docA; docB; docC] docB).
  - reflexivity.
  - reflexivity.
  - now left.
  - reflexivity.
  - now left.
  - intros [H | []]. discriminate.
  - right. now left.
  - reflexivity.
Defined.

Lemma clean_document_unaffected_witness :
  ~ carries_error docA
  /\ JsMap.get (URI_toString (uri docA)) (referenceIndex indexed) = None
  /\ ~ In docA (getAffectedDocuments [uriB] [docA; docB; docC] indexed).
Proof.
  assert (Hclean : ~ carries_error docA) by (intros (r & [] & _)).
  split; [exact Hclean|]. split; [reflexivity|].
  apply (clean_document_unaffected [uriB] [docA; docB; docC] indexed docA Hclean).
  intros refs r Hget. discriminate Hget.
Defined.

Lemma updateReferences_then_findAllReferences_witness :
  JsMap.wf (referenceIndex indexedAB)
  /\ (let '(res, d', s') := updateReferences getServices docB None indexedAB in
      res = Returned tt
      /\ state d' = IndexedReferences
      /\ forall targetNode astNodePath r,
          In r (findAllReferences targetNode astNodePath s')
          <-> (In r refsB
               \/ exists docUri refs,
                   docUri <> URI_toString (uri docB)
                   /\ JsMap.get docUri (referenceIndex indexedAB) = Some refs
                   /\ In r refs)
              /\ targetUri r = uri (getDocument targetNode)
              /\ targetPath r = astNodePath).
Proof.
  assert (Hwf : JsMap.wf (referenceIndex indexedAB)) by constructor.
  split; [exact Hwf|].
  exact (updateReferences_then_findAllReferences getServices docB None
           indexedAB calcServices refsB Hwf eq_refl eq_refl).
Defined.

Lemma resumed_after_updateReferences_wf :
  JsMap.wf
    (simpleIndex
       (snd (updateReferences getServices docB None
               (snd (updateContent_begin getServices docA None indexedAB))))).
Proof.
  unfold JsMap.wf. cbn.
  repeat (constructor; [simpl; intuition discriminate|]). constructor.
Qed.

(** [updateReferences(b.calc)] runs while [updateContent(a.calc)] is
    suspended; the caches are still empty as the update resumes. *)
Lemma updateContent_then_globalScope_witness :
  let s2 :=
    snd (updateReferences getServices docB None
           (snd (updateContent_begin getServices docA None indexedAB))) in
  caches_cleared s2
  /\ JsMap.wf (simpleIndex s2)
  /\ (let '(res, d', s3) := updateContent_resume docA (Returned exportsA) s2 in
      res = Returned tt
      /\ forall T o e,
          In e (scope_elements (fst (fst (globalScope isSubtype T o s3))))
          <-> (In e (map clear_node exportsA)
               \/ exists docUri descriptions,
                   docUri <> URI_toString (uri docA)
                   /\ JsMap.get docUri (simpleIndex s2) = Some descriptions
                   /\ In e descriptions)
              /\ isSubtype (type e) (default "" T) = true).
Proof.
  intros s2.
  assert (Hcl : caches_cleared s2) by (split; reflexivity).
  split; [exact Hcl|]. split; [exact resumed_after_updateReferences_wf|].
  exact (updateContent_then_globalScope isSubtype docA exportsA s2 Hcl
           resumed_after_updateReferences_wf).
Defined.

(** While [updateContent(b.calc)] is suspended, [globalScope('Module')]
    caches a scope with no element; after the update has stored the module
    [m], [globalScope('Module')] still returns that scope. *)
Lemma globalScope_during_await_stays_cached_witness :
  updateContent_begin getServices docB None indexedA
  = (Returned exportsB, snd (updateContent_begin getServices docB None indexedA))
  /\ (let '(r, s2, _) :=
        globalScope isSubtype (Some "Module") None
          (snd (updateContent_begin getServices docB None indexedA)) in
      let '(res, _, s3) := updateContent_resume docB (Returned exportsB) s2 in
      res = Returned tt
      /\ simpleIndex s3
         = JsMap.set (URI_toString (uri docB)) (map clear_node exportsB)
                     (simpleIndex indexedA)
      /\ r = MapScope (elements_of_type isSubtype (default "" (Some "Module"))
                         (allElements indexedA))
                      None None
      /\ fst (fst (globalScope isSubtype (Some "Module") None s3)) = r
      /\ snd (globalScope isSubtype (Some "Module") None s3) = []).
Proof.
  split; [reflexivity|].
  exact (globalScope_during_await_stays_cached isSubtype getServices docB None
           indexedA exportsB _ (Some "Module") None None eq_refl).
Defined.

Lemma globalScope_reachable_filter_witness :
  reachable isSubtype getServices indexed
  /\ scope_elements
       (fst (fst (globalScope isSubtype (Some "AbstractDefinition") None indexed)))
     = elements_of_type isSubtype "AbstractDefinition" (allElements indexed).
Proof.
  split; [exact indexed_reachable|].
  exact (proj1 (globalScope_reachable_filter isSubtype getServices
                  (Some "AbstractDefinition") None indexed indexed_reachable)).
Defined.

Lemma reachable_nodes_cleared_witness :
  reachable isSubtype getServices indexed /\ nodes_cleared indexed.
Proof.
  split; [exact indexed_reachable|].
  exact (reachable_nodes_cleared isSubtype getServices indexed indexed_reachable).
Defined.

(** ** Order of the global scope *)
Section OrderFacts.

Variable isSubtype : string -> string -> bool.
Variable getServices : URI -> Completion LangiumServices.

Lemma set_absent {V : Type} (k : string) (v : V) (m : JsMap.t V) :
  JsMap.get k m = None -> JsMap.set k v m = m ++ [(k, v)].
Proof.
  induction m as [|[k0 v0] m IH]; simpl; [reflexivity|].
  destruct (String.eqb k0 k); [discriminate|].
  intros H. now rewrite IH.
Qed.

(** X16: when [updateContent(d)] resumes with the extractor's list on a
    manager whose caches are still empty and whose symbol index has no
    entry for [d], the scope of the next [globalScope(T)] lists the
    descriptions stored as the update resumed, in their order, followed
    by those of [d] that pass the filter: a newly indexed document comes
    last in the global scope. *)
Theorem updateContent_new_document_last d exports s2 T o :
  caches_cleared s2 ->
  JsMap.get (URI_toString (uri d)) (simpleIndex s2) = None ->
  scope_elements
    (fst (fst (globalScope isSubtype T o
                 (snd (updateContent_resume d (Returned exports) s2)))))
  = elements_of_type isSubtype (default "" T) (allElements s2)
    ++ elements_of_type isSubtype (default "" T) (map clear_node exports).
Proof.
  intros [Hgc Hac] Habs. unfold updateContent_resume. simpl.
  rewrite globalScope_elements by (apply cleared_coherent; now split).
  unfold elements_of_type, allElements. simpl.
  rewrite (set_absent _ _ _ Habs).
  unfold JsMap.values. rewrite map_app, concat_app, filter_app. simpl.
  now rewrite app_nil_r.
Qed.

End OrderFacts.

Lemma updateContent_new_document_last_witness :
  let s2 := snd (updateContent_begin getServices docB None indexedA) in
  caches_cleared s2
  /\ JsMap.get (URI_toString (uri docB)) (simpleIndex s2) = None
  /\ scope_elements
       (fst (fst (globalScope isSubtype None None
                    (snd (updateContent_resume docB (Returned exportsB) s2)))))
     = elements_of_type isSubtype (default "" None) (allElements s2)
       ++ elements_of_type isSubtype (default "" None)
            (map clear_node exportsB).
Proof.
  intros s2.
  assert (Hcl : caches_cleared s2) by (split; reflexivity).
  split; [exact Hcl|]. split; [reflexivity|].
  exact (updateContent_new_document_last isSubtype docB exportsB s2 None None
           Hcl eq_refl).
Defined.

(** ** A query at the [await] of [updateContent] *)

(** C3: [updateContent(b.calc)] starts on a manager that holds the
    definition [x], resets both caches and awaits the extractor;
    [globalScope('Definition')] runs meanwhile; the update resumes, stores
    the module [m] and returns.  On return the symbol index holds [x] and
    [m], yet neither cache is empty: the flattened list holds [x] alone
    and the scope cached for ['Definition'] is still there, and
    [globalScope('Module')], a filter never asked before, returns a scope
    with no element.  The reset comes before the [await], the store after
    it, and nothing resets the caches after the store. *)
Theorem interrupted_updateContent_leaves_stale_caches :
  let x := {| node := None; name := "x"; type := "Definition";
              documentUri := uriA; path := xPath |} in
  let m := {| node := None; name := "m"; type := "Module";
              documentUri := uriB; path := "" |} in
  let '(outcome, s1) := updateContent_begin getServices docB None indexedA in
  let '(_, s2, _) := globalScope isSubtype (Some "Definition") None s1 in
  let '(res, d', s3) := updateContent_resume docB outcome s2 in
  res = Returned tt
  /\ state d' = IndexedContent
  /\ allElements s3 = [x; m]
  /\ allElementsCache s3 = [x]
  /\ globalScopeCache s3 !! "Definition" = Some (MapScope [x] None None)
  /\ ~ caches_cleared s3
  /\ fst (fst (globalScope isSubtype (Some "Module") None s3))
     = MapScope [] None None
  /\ elements_of_type isSubtype "Module" (allElements s3) = [m].
Proof.
  cbv zeta. vm_compute updateContent_begin. cbv iota beta.
  repeat (split; [reflexivity|]).
  split; [|split; reflexivity].
  intros [_ H]. discriminate H.
Qed.
